(** * Alpha Vantage MCP server: a shallow embedding of [src/index.ts]

    The server registers seven tools with an [McpServer]; every tool
    builds a parameter object, hands it to [makeAlphaVantageRequest]
    (one [axios.get] wrapped in [try]/[catch]) and answers with one text
    block: the payload printed by [JSON.stringify (_, null, 2)], or a
    fixed failure string.

    Data follows the program: JavaScript strings are [string]s (the
    UTF-8 bytes of the source text), objects are association lists in
    property enumeration order, the value of [response.data] is a JSON
    tree.  Numbers are the safe integers and the negative zero; the
    other doubles (fractions, exponents, infinities) have no value in
    the embedding. *)

From Stdlib Require Import String Ascii List ZArith NArith Lia Bool.
From Stdlib Require Import Decimal DecimalPos DecimalN DecimalFacts DecimalString.
Import ListNotations.
Local Open Scope list_scope.
Local Open Scope string_scope.

Set Implicit Arguments.

(** ** Characters the program and the JSON grammar name *)

Module Ch.
Definition BS : ascii := "008"%char.
Definition TAB : ascii := "009"%char.
Definition LF : ascii := "010"%char.
Definition FF : ascii := "012"%char.
Definition CR : ascii := "013"%char.
Definition SP : ascii := " "%char.
Definition DQ : ascii := "034"%char.
Definition BSL : ascii := "\"%char.
Definition SLASH : ascii := "/"%char.
Definition COMMA : ascii := ","%char.
Definition COLON : ascii := ":"%char.
Definition LBRACK : ascii := "["%char.
Definition RBRACK : ascii := "]"%char.
Definition LBRACE : ascii := "{"%char.
Definition RBRACE : ascii := "}"%char.
Definition MINUS : ascii := "-"%char.
End Ch.

Definition str1 (c : ascii) : string := String c EmptyString.

(** ** JavaScript objects: own properties in enumeration order *)

Module Obj.

(** Digits of a property name, when it consists of digits only. *)
Definition digit_of (c : ascii) : option N :=
  let n := N_of_ascii c in
  if (48 <=? n)%N && (n <=? 57)%N then Some (n - 48)%N else None.

Fixpoint digits_value (acc : N) (s : string) : option N :=
  match s with
  | EmptyString => Some acc
  | String c r =>
      match digit_of c with
      | Some d => digits_value (acc * 10 + d)%N r
      | None => None
      end
  end.

(** An array index is a canonical numeric string below [2^32 - 1]. *)
Definition array_index (k : string) : option N :=
  match k with
  | EmptyString => None
  | String c r =>
      if Ascii.eqb c "0"%char && negb (String.eqb r EmptyString) then None
      else match digits_value 0 k with
           | Some n => if (n <? 4294967295)%N then Some n else None
           | None => None
           end
  end.

(** [key_before a b]: in the enumeration order of an object, a
    property named [a] may come before one named [b].  Array indices
    come first, in ascending order, then the other names in the order
    they were created. *)
Definition key_before (a b : string) : bool :=
  match array_index a, array_index b with
  | Some i, Some j => (i <? j)%N
  | Some _, None => true
  | None, Some _ => false
  | None, None => true
  end.

Section Ops.
Variable V : Type.

Definition t := list (string * V).

Fixpoint get (o : t) (k : string) : option V :=
  match o with
  | [] => None
  | (k', v) :: r => if String.eqb k' k then Some v else get r k
  end.

Definition has (o : t) (k : string) : bool :=
  match get o k with Some _ => true | None => false end.

Fixpoint replace (o : t) (k : string) (v : V) : t :=
  match o with
  | [] => []
  | (k', v') :: r =>
      if String.eqb k' k then (k', v) :: r else (k', v') :: replace r k v
  end.

Fixpoint insert (o : t) (k : string) (v : V) : t :=
  match o with
  | [] => [(k, v)]
  | (k', v') :: r =>
      if key_before k' k then (k', v') :: insert r k v
      else (k, v) :: (k', v') :: r
  end.

(** [o[k] = v]: an existing property keeps its place, a new one is
    created at its place in the enumeration order. *)
Definition set (o : t) (k : string) (v : V) : t :=
  if has o k then replace o k v else insert o k v.

(** [{ ...src }] into [dst]: the properties of [src] are set one
    after the other, in their order. *)
Definition spread (dst src : t) : t :=
  fold_left (fun o kv => set o (fst kv) (snd kv)) src dst.

(** An object literal [{ k1: v1, ..., kn: vn }]. *)
Definition literal (kvs : list (string * V)) : t := spread [] kvs.

End Ops.

(** The names of an object are pairwise different and in enumeration
    order. *)
Fixpoint ordered (ks : list string) : bool :=
  match ks with
  | [] => true
  | k :: r =>
      forallb (fun k' => negb (String.eqb k k') && key_before k k') r
      && ordered r
  end.

End Obj.

(** ** JSON values *)

Unset Elimination Schemes.
Inductive json : Type :=
| JNull
| JBool (b : bool)
| JNum (n : Z)
| JNegZero
| JStr (s : string)
| JArr (xs : list json)
| JObj (kvs : list (string * json)).
Set Elimination Schemes.

(** Induction over the tree, with the hypothesis for every element of an
    array and every value of an object. *)
Section JsonInd.
Variable P : json -> Prop.
Hypothesis Hnull : P JNull.
Hypothesis Hbool : forall b, P (JBool b).
Hypothesis Hnum : forall n, P (JNum n).
Hypothesis Hnegzero : P JNegZero.
Hypothesis Hstr : forall s, P (JStr s).
Hypothesis Harr : forall xs, Forall P xs -> P (JArr xs).
Hypothesis Hobj : forall kvs, Forall (fun kv => P (snd kv)) kvs -> P (JObj kvs).

Fixpoint json_ind (v : json) : P v :=
  match v with
  | JNull => Hnull
  | JBool b => Hbool b
  | JNum n => Hnum n
  | JNegZero => Hnegzero
  | JStr s => Hstr s
  | JArr xs =>
      Harr ((fix go (l : list json) : Forall P l :=
               match l with
               | [] => Forall_nil _
               | x :: r => Forall_cons x (json_ind x) (go r)
               end) xs)
  | JObj kvs =>
      Hobj ((fix go (l : list (string * json))
               : Forall (fun kv => P (snd kv)) l :=
               match l with
               | [] => Forall_nil _
               | kv :: r =>
                   @Forall_cons _ (fun kv => P (snd kv)) kv r
                     (json_ind (snd kv)) (go r)
               end) kvs)
  end.
End JsonInd.

(** JavaScript's [ToBoolean], as [if (!x)] applies it. *)
Definition truthy (v : json) : bool :=
  match v with
  | JNull => false
  | JBool b => b
  | JNum n => negb (Z.eqb n 0)
  | JNegZero => false
  | JStr s => negb (String.eqb s EmptyString)
  | JArr _ => true
  | JObj _ => true
  end.

(** The integers a double holds exactly. *)
Definition safe_integer (n : Z) : bool := (Z.abs n <=? 9007199254740991)%Z.

(** The values that are printed without loss: numbers are safe integers
    and not the negative zero, objects have their names in enumeration
    order. *)
Fixpoint wf_json (v : json) : bool :=
  match v with
  | JNull | JBool _ | JStr _ => true
  | JNum n => safe_integer n
  | JNegZero => false
  | JArr xs => forallb wf_json xs
  | JObj kvs =>
      Obj.ordered (map fst kvs) && forallb (fun kv => wf_json (snd kv)) kvs
  end.

(** ** [JSON.stringify] *)

Module JSON.

Definition hex_digit (n : N) : ascii :=
  match n with
  | 0 => "0" | 1 => "1" | 2 => "2" | 3 => "3" | 4 => "4" | 5 => "5"
  | 6 => "6" | 7 => "7" | 8 => "8" | 9 => "9" | 10 => "a" | 11 => "b"
  | 12 => "c" | 13 => "d" | 14 => "e" | _ => "f"
  end%N%char.

(** [\uXXXX] for a code unit below 256. *)
Definition unicode_escape (c : ascii) : string :=
  let n := N_of_ascii c in
  String Ch.BSL (String "u" (String "0" (String "0"
    (String (hex_digit (n / 16)) (String (hex_digit (n mod 16)) EmptyString))))).

Definition two (a b : ascii) : string := String a (String b EmptyString).

Definition quote_char (c : ascii) : string :=
  if Ascii.eqb c Ch.BS then two Ch.BSL "b"
  else if Ascii.eqb c Ch.TAB then two Ch.BSL "t"
  else if Ascii.eqb c Ch.LF then two Ch.BSL "n"
  else if Ascii.eqb c Ch.FF then two Ch.BSL "f"
  else if Ascii.eqb c Ch.CR then two Ch.BSL "r"
  else if Ascii.eqb c Ch.DQ then two Ch.BSL Ch.DQ
  else if Ascii.eqb c Ch.BSL then two Ch.BSL Ch.BSL
  else if (N_of_ascii c <? 32)%N then unicode_escape c
  else str1 c.

Fixpoint quote_chars (s : string) : string :=
  match s with
  | EmptyString => EmptyString
  | String c r => quote_char c ++ quote_chars r
  end.

(** [QuoteJSONString]. *)
Definition quote (s : string) : string :=
  String Ch.DQ (quote_chars s ++ str1 Ch.DQ).

(** [Number::toString] on an integer. *)
Definition number_to_string (n : Z) : string :=
  match n with
  | Z0 => "0"
  | Zpos p => NilEmpty.string_of_uint (Pos.to_uint p)
  | Zneg p => String Ch.MINUS (NilEmpty.string_of_uint (Pos.to_uint p))
  end.

Fixpoint spaces (n : nat) : string :=
  match n with
  | O => EmptyString
  | S m => String Ch.SP (spaces m)
  end.

(** The wrapper of [SerializeJSONArray] and [SerializeJSONObject]
    around the already printed parts. *)
Definition wrap (gap stepback : string) (l r : ascii) (parts : list string)
  : string :=
  match parts with
  | [] => two l r
  | _ =>
      if String.eqb gap EmptyString
      then String l (String.concat (str1 Ch.COMMA) parts ++ str1 r)
      else
        let indent := stepback ++ gap in
        String l (String Ch.LF (indent
          ++ String.concat (String Ch.COMMA (String Ch.LF indent)) parts
          ++ String Ch.LF (stepback ++ str1 r)))
  end.

Definition member (gap : string) (k : string) (text : string) : string :=
  quote k ++ String Ch.COLON
    (if String.eqb gap EmptyString then text else String Ch.SP text).

(** [SerializeJSONProperty] with the current indentation. *)
Fixpoint serialize (gap indent : string) (v : json) : string :=
  match v with
  | JNull => "null"
  | JBool true => "true"
  | JBool false => "false"
  | JNum n => number_to_string n
  | JNegZero => "0"
  | JStr s => quote s
  | JArr xs =>
      wrap gap indent Ch.LBRACK Ch.RBRACK
        (map (serialize gap (indent ++ gap)) xs)
  | JObj kvs =>
      wrap gap indent Ch.LBRACE Ch.RBRACE
        (map (fun kv => member gap (fst kv)
                          (serialize gap (indent ++ gap) (snd kv))) kvs)
  end.

(** [JSON.stringify (v, null, space)] with a numeric [space]. *)
Definition stringify (v : json) (space : nat) : string :=
  serialize (spaces (Nat.min space 10)) EmptyString v.

(** *** [JSON.parse] *)

Definition is_ws (c : ascii) : bool :=
  Ascii.eqb c Ch.SP || Ascii.eqb c Ch.TAB || Ascii.eqb c Ch.LF
  || Ascii.eqb c Ch.CR.

Fixpoint skip_ws (s : string) : string :=
  match s with
  | EmptyString => EmptyString
  | String c r => if is_ws c then skip_ws r else s
  end.

Definition digit_con (c : ascii) : option (uint -> uint) :=
  match c with
  | "0" => Some D0 | "1" => Some D1 | "2" => Some D2 | "3" => Some D3
  | "4" => Some D4 | "5" => Some D5 | "6" => Some D6 | "7" => Some D7
  | "8" => Some D8 | "9" => Some D9 | _ => None
  end%char.

Fixpoint read_digits (s : string) : uint * string :=
  match s with
  | EmptyString => (Nil, EmptyString)
  | String c r =>
      match digit_con c with
      | Some f => let (d, rest) := read_digits r in (f d, rest)
      | None => (Nil, s)
      end
  end.

(** A fraction or an exponent would follow here.  The embedding has the
    safe integers and the negative zero: a literal with a fraction or an
    exponent, or an integer a double would round, is given no value
    rather than a wrong one. *)
Definition integer_ends (rest : string) : bool :=
  match rest with
  | EmptyString => true
  | String c _ => negb (Ascii.eqb c "." || Ascii.eqb c "e" || Ascii.eqb c "E")
  end.

(** The number of a run of digits and a sign. *)
Definition number_of_digits (neg : bool) (d : uint) (rest : string)
  : option (json * string) :=
  match d with
  | Nil => None
  | D0 Nil => Some (if neg then JNegZero else JNum 0, rest)
  | D0 _ => None
  | _ =>
      let n := Z.of_N (N.of_uint d) in
      if safe_integer n
      then Some (JNum (if neg then Z.opp n else n), rest)
      else None
  end.

Definition parse_number (s : string) : option (json * string) :=
  let (neg, s1) :=
    match s with
    | String c r => if Ascii.eqb c Ch.MINUS then (true, r) else (false, s)
    | EmptyString => (false, s)
    end in
  let (d, rest) := read_digits s1 in
  if integer_ends rest then number_of_digits neg d rest else None.

Definition hex_value (c : ascii) : option N :=
  let n := N_of_ascii c in
  if (48 <=? n)%N && (n <=? 57)%N then Some (n - 48)%N
  else if (97 <=? n)%N && (n <=? 102)%N then Some (n - 87)%N
  else if (65 <=? n)%N && (n <=? 70)%N then Some (n - 55)%N
  else None.

Definition hex4 (a b c d : ascii) : option N :=
  match hex_value a, hex_value b, hex_value c, hex_value d with
  | Some x, Some y, Some z, Some w => Some (((x * 16 + y) * 16 + z) * 16 + w)%N
  | _, _, _, _ => None
  end.

(** The bytes of a code unit of the basic plane; a surrogate has none
    on its own: the strings of the embedding are well-formed UTF-8, and a
    text that escapes a lone surrogate is given no value. *)
Definition utf8 (n : N) : option string :=
  if (n <? 128)%N then Some (str1 (ascii_of_N n))
  else if (n <? 2048)%N then
    Some (two (ascii_of_N (192 + n / 64)) (ascii_of_N (128 + n mod 64)))
  else if (55296 <=? n)%N && (n <? 57344)%N then None
  else
    Some (String (ascii_of_N (224 + n / 4096))
            (two (ascii_of_N (128 + (n / 64) mod 64))
                 (ascii_of_N (128 + n mod 64)))).

(** The two halves of an escaped character outside the basic plane, and
    the four bytes of that character. *)
Definition high_surrogate (n : N) : bool := (55296 <=? n)%N && (n <? 56320)%N.

Definition low_surrogate (n : N) : bool := (56320 <=? n)%N && (n <? 57344)%N.

Definition surrogate_pair (hi lo : N) : N :=
  (65536 + (hi - 55296) * 1024 + (lo - 56320))%N.

Definition utf8_astral (n : N) : string :=
  String (ascii_of_N (240 + n / 262144))
    (String (ascii_of_N (128 + (n / 4096) mod 64))
       (two (ascii_of_N (128 + (n / 64) mod 64))
            (ascii_of_N (128 + n mod 64)))).

Definition unescape (c : ascii) : option ascii :=
  if Ascii.eqb c Ch.DQ then Some Ch.DQ
  else if Ascii.eqb c Ch.BSL then Some Ch.BSL
  else if Ascii.eqb c Ch.SLASH then Some Ch.SLASH
  else if Ascii.eqb c "b" then Some Ch.BS
  else if Ascii.eqb c "f" then Some Ch.FF
  else if Ascii.eqb c "n" then Some Ch.LF
  else if Ascii.eqb c "r" then Some Ch.CR
  else if Ascii.eqb c "t" then Some Ch.TAB
  else None.

Definition prepend (p : string) (r : option (string * string))
  : option (string * string) :=
  match r with
  | Some (t, rest) => Some (p ++ t, rest)
  | None => None
  end.

(** The characters of a string literal after its opening quote, up to
    and with the closing one. *)
Fixpoint parse_chars (s : string) : option (string * string) :=
  match s with
  | EmptyString => None
  | String c r =>
      if Ascii.eqb c Ch.DQ then Some (EmptyString, r)
      else if Ascii.eqb c Ch.BSL then
        match r with
        | EmptyString => None
        | String e r1 =>
            if Ascii.eqb e "u" then
              match r1 with
              | String h1 (String h2 (String h3 (String h4 r2))) =>
                  match hex4 h1 h2 h3 h4 with
                  | Some n =>
                      if high_surrogate n then
                        match r2 with
                        | String b (String u (String k1 (String k2
                            (String k3 (String k4 r3))))) =>
                            if Ascii.eqb b Ch.BSL && Ascii.eqb u "u" then
                              match hex4 k1 k2 k3 k4 with
                              | Some m =>
                                  if low_surrogate m
                                  then prepend
                                         (utf8_astral (surrogate_pair n m))
                                         (parse_chars r3)
                                  else None
                              | None => None
                              end
                            else None
                        | _ => None
                        end
                      else
                        match utf8 n with
                        | Some bytes => prepend bytes (parse_chars r2)
                        | None => None
                        end
                  | None => None
                  end
              | _ => None
              end
            else
              match unescape e with
              | Some c' => prepend (str1 c') (parse_chars r1)
              | None => None
              end
        end
      else if (N_of_ascii c <? 32)%N then None
      else prepend (str1 c) (parse_chars r)
  end.

Fixpoint expect (lit : string) (s : string) : option string :=
  match lit with
  | EmptyString => Some s
  | String c l =>
      match s with
      | String c' r => if Ascii.eqb c c' then expect l r else None
      | EmptyString => None
      end
  end.

Definition keyword (lit : string) (v : json) (s : string)
  : option (json * string) :=
  match expect lit s with
  | Some rest => Some (v, rest)
  | None => None
  end.

Section Loops.
(** The parser of one value, whitespace before it included. *)
Variable pv : string -> option (json * string).

(** The elements of an array after [[], up to and with []]. *)
Fixpoint parse_elements (n : nat) (s : string)
  : option (list json * string) :=
  match n with
  | O => None
  | S m =>
      match pv s with
      | Some (v, r) =>
          match skip_ws r with
          | String c r' =>
              if Ascii.eqb c Ch.COMMA then
                match parse_elements m r' with
                | Some (vs, rest) => Some (v :: vs, rest)
                | None => None
                end
              else if Ascii.eqb c Ch.RBRACK then Some ([v], r')
              else None
          | EmptyString => None
          end
      | None => None
      end
  end.

(** The members of an object after [{], up to and with [}]; each one
    is set on the object built so far. *)
Fixpoint parse_members (n : nat) (acc : Obj.t json) (s : string)
  : option (Obj.t json * string) :=
  match n with
  | O => None
  | S m =>
      match skip_ws s with
      | String q r =>
          if Ascii.eqb q Ch.DQ then
            match parse_chars r with
            | Some (k, r1) =>
                match skip_ws r1 with
                | String c r2 =>
                    if Ascii.eqb c Ch.COLON then
                      match pv r2 with
                      | Some (v, r3) =>
                          let acc' := Obj.set acc k v in
                          match skip_ws r3 with
                          | String d r4 =>
                              if Ascii.eqb d Ch.COMMA
                              then parse_members m acc' r4
                              else if Ascii.eqb d Ch.RBRACE
                              then Some (acc', r4)
                              else None
                          | EmptyString => None
                          end
                      | None => None
                      end
                    else None
                | EmptyString => None
                end
            | None => None
            end
          else None
      | EmptyString => None
      end
  end.
End Loops.

Fixpoint parse_value (fuel : nat) (s : string) : option (json * string) :=
  match fuel with
  | O => None
  | S f =>
      match skip_ws s with
      | EmptyString => None
      | String c r =>
          if Ascii.eqb c "n" then keyword "ull" JNull r
          else if Ascii.eqb c "t" then keyword "rue" (JBool true) r
          else if Ascii.eqb c "f" then keyword "alse" (JBool false) r
          else if Ascii.eqb c Ch.DQ then
            match parse_chars r with
            | Some (t, rest) => Some (JStr t, rest)
            | None => None
            end
          else if Ascii.eqb c Ch.LBRACK then
            match skip_ws r with
            | String c' r' =>
                if Ascii.eqb c' Ch.RBRACK then Some (JArr [], r')
                else
                  match parse_elements (parse_value f) f r with
                  | Some (xs, rest) => Some (JArr xs, rest)
                  | None => None
                  end
            | EmptyString => None
            end
          else if Ascii.eqb c Ch.LBRACE then
            match skip_ws r with
            | String c' r' =>
                if Ascii.eqb c' Ch.RBRACE then Some (JObj [], r')
                else
                  match parse_members (parse_value f) f [] r with
                  | Some (kvs, rest) => Some (JObj kvs, rest)
                  | None => None
                  end
            | EmptyString => None
            end
          else
            parse_number (String c r)
      end
  end.

(** [JSON.parse (text)]: one value, nothing but whitespace after it.
    [None] is the [SyntaxError]. *)
Definition parse (text : string) : option json :=
  match parse_value (S (String.length text)) text with
  | Some (v, rest) =>
      match skip_ws rest with
      | EmptyString => Some v
      | String _ _ => None
      end
  | None => None
  end.

End JSON.

(** ** Completions, the console and the upstream *)

(** A request as axios issues it: the URL and the query pairs. *)
Record request : Type := { url : string; query : list (string * string) }.

(** What comes back for one GET: a response, a response that sends the
    client on to another location, a fault of the network, or no answer
    before the transport gives up. *)
Inductive reply : Type :=
| Responds (status : Z) (data : json)
| Redirects (status : Z) (location : request)
| NetworkFault (code : string)
| TimedOut.

Inductive js_error : Type :=
| Error (message : string)
| AxiosError (cause : reply).

Record response : Type := { status : Z; data : json }.

(** The part of the world a call touches: the upstream, the requests
    handed to axios so far and the lines of [console.error].  The
    upstream answers a request the same way each time, and always
    answers or fails: a service that changes between calls, or one that
    never answers (the source sets no timeout), is outside the embedding. *)
Record world : Type := {
  upstream : request -> reply;
  sent : list request;
  stderr : list (string * js_error)
}.

Inductive completion (A : Type) : Type :=
| Normal (a : A)
| Throw (e : js_error).
Arguments Normal {A} a.
Arguments Throw {A} e.

Definition M (A : Type) : Type := world -> completion A * world.

Definition ret {A} (a : A) : M A := fun w => (Normal a, w).

Definition throw {A} (e : js_error) : M A := fun w => (Throw e, w).

Definition bind {A B} (c : M A) (k : A -> M B) : M B :=
  fun w =>
    match c w with
    | (Normal a, w') => k a w'
    | (Throw e, w') => (Throw e, w')
    end.

Definition try_catch {A} (body : M A) (handler : js_error -> M A) : M A :=
  fun w =>
    match body w with
    | (Normal a, w') => (Normal a, w')
    | (Throw e, w') => handler e w'
    end.

Notation "x <- c ;; k" := (bind c (fun x => k))
  (at level 61, c at next level, right associativity).
Notation "c ;;; k" := (bind c (fun _ => k))
  (at level 61, right associativity).

Definition console_error (prefix : string) (e : js_error) : M unit :=
  fun w =>
    (Normal tt,
     {| upstream := upstream w; sent := sent w;
        stderr := stderr w ++ [(prefix, e)] |}).

(** ** axios *)

(** Parameters as [AlphaVantageParams] types them: [string | undefined]. *)
Definition AlphaVantageParams : Type := Obj.t (option string).

(** The query axios builds: parameters that are [undefined] are left
    out. *)
Fixpoint serialize_params (params : AlphaVantageParams)
  : list (string * string) :=
  match params with
  | [] => []
  | (k, Some v) :: r => (k, v) :: serialize_params r
  | (_, None) :: r => serialize_params r
  end.

(** The default [validateStatus]. *)
Definition validateStatus (status : Z) : bool :=
  (200 <=? status)%Z && (status <? 300)%Z.

(** The default [maxRedirects]. *)
Definition maxRedirects : nat := 5.

(** The reply the client ends with: a redirection is followed to its
    location, at most [n] times, then the client gives up. *)
Fixpoint follow (up : request -> reply) (n : nat) (req : request) : reply :=
  match up req with
  | Redirects _ location =>
      match n with
      | O => NetworkFault "ERR_FR_TOO_MANY_REDIRECTS"
      | S m => follow up m location
      end
  | r => r
  end.

(** [axios.get (u, { params })]: one GET, redirections followed; a fault
    of the transport or a last status outside 2xx rejects. *)
Definition axios_get (u : string) (params : AlphaVantageParams) : M response :=
  fun w =>
    let req := {| url := u; query := serialize_params params |} in
    let w' := {| upstream := upstream w; sent := sent w ++ [req];
                 stderr := stderr w |} in
    match follow (upstream w) maxRedirects req with
    | Responds st d =>
        if validateStatus st then (Normal {| status := st; data := d |}, w')
        else (Throw (AxiosError (Responds st d)), w')
    | r => (Throw (AxiosError r), w')
    end.

(** ** The request gateway *)

Definition ALPHA_VANTAGE_BASE : string := "https://www.alphavantage.co/query".

Definition request_failed : string := "[错误] 请求 Alpha Vantage API 失败:".

Section Server.
(** [process.env.ALPHA_VANTAGE_API_KEY], read when the module loads. *)
Variable API_KEY : string.

Definition makeAlphaVantageRequest (params : AlphaVantageParams) : M json :=
  try_catch
    (response <- axios_get ALPHA_VANTAGE_BASE
                   (Obj.set (Obj.spread [] params) "apikey" (Some API_KEY)) ;;
     if negb (truthy (data response))
     then throw (Error "无效的响应数据")
     else ret (data response))
    (fun error =>
       console_error request_failed error ;;;
       ret JNull).

(** ** The tools *)

Record content_block : Type := { type : string; text : string }.

Record tool_result : Type := { content : list content_block }.

Definition text_result (t : string) : tool_result :=
  {| content := [ {| type := "text"; text := t |} ] |}.

Definition get_stock_price (symbol : option string) : M tool_result :=
  stockData <- makeAlphaVantageRequest
                 (Obj.literal [("function", Some "GLOBAL_QUOTE");
                               ("symbol", symbol)]) ;;
  if negb (truthy stockData)
  then ret (text_result "获取股票数据失败")
  else ret (text_result (JSON.stringify stockData 2)).

Definition get_company_overview (symbol : option string) : M tool_result :=
  companyData <- makeAlphaVantageRequest
                   (Obj.literal [("function", Some "OVERVIEW");
                                 ("symbol", symbol)]) ;;
  if negb (truthy companyData)
  then ret (text_result "获取公司数据失败")
  else ret (text_result (JSON.stringify companyData 2)).

Definition get_daily_time_series (symbol outputsize : option string)
  : M tool_result :=
  timeSeriesData <- makeAlphaVantageRequest
                      (Obj.literal [("function", Some "TIME_SERIES_DAILY");
                                    ("symbol", symbol);
                                    ("outputsize", outputsize)]) ;;
  if negb (truthy timeSeriesData)
  then ret (text_result "获取时间序列数据失败")
  else ret (text_result (JSON.stringify timeSeriesData 2)).

Definition get_weekly_time_series (symbol : option string) : M tool_result :=
  weeklyData <- makeAlphaVantageRequest
                  (Obj.literal [("function", Some "TIME_SERIES_WEEKLY");
                                ("symbol", symbol)]) ;;
  if negb (truthy weeklyData)
  then ret (text_result "获取每周时间序列数据失败")
  else ret (text_result (JSON.stringify weeklyData 2)).

Definition get_forex_rate (from_currency to_currency : option string)
  : M tool_result :=
  forexData <- makeAlphaVantageRequest
                 (Obj.literal [("function", Some "CURRENCY_EXCHANGE_RATE");
                               ("from_currency", from_currency);
                               ("to_currency", to_currency)]) ;;
  if negb (truthy forexData)
  then ret (text_result "获取外汇汇率数据失败")
  else ret (text_result (JSON.stringify forexData 2)).

Definition get_crypto_price (symbol market : option string) : M tool_result :=
  cryptoData <- makeAlphaVantageRequest
                  (Obj.literal [("function", Some "CRYPTO_INTRADAY");
                                ("symbol", symbol);
                                ("market", market)]) ;;
  if negb (truthy cryptoData)
  then ret (text_result "获取加密货币价格数据失败")
  else ret (text_result (JSON.stringify cryptoData 2)).

Definition get_technical_indicator (symbol indicator interval : option string)
  : M tool_result :=
  indicatorData <- makeAlphaVantageRequest
                     (Obj.literal [("function", indicator);
                                   ("symbol", symbol);
                                   ("interval", interval)]) ;;
  if negb (truthy indicatorData)
  then ret (text_result "获取技术指标数据失败")
  else ret (text_result (JSON.stringify indicatorData 2)).

(** ** The registry: [server.tool (name, description, shape, cb)] *)

(** The two schemas the shapes use: [z.string ()] and
    [z.enum (values).default (d)]. *)
Inductive zod : Type :=
| ZString
| ZEnumDefault (values : list string) (default : string).

(** Parsing one property; [None] for the input is [undefined]. *)
Definition zod_parse (z : zod) (input : option json) : option string :=
  match z, input with
  | ZString, Some (JStr s) => Some s
  | ZString, _ => None
  | ZEnumDefault _ d, None => Some d
  | ZEnumDefault vs _, Some (JStr s) =>
      if existsb (String.eqb s) vs then Some s else None
  | ZEnumDefault _ _, Some _ => None
  end.

(** Parsing the arguments against a shape: every property of the
    shape, in its order; what the shape does not name is dropped. *)
Fixpoint zod_object (shape : list (string * zod)) (raw : Obj.t json)
  : option (Obj.t string) :=
  match shape with
  | [] => Some []
  | (k, z) :: r =>
      match zod_parse z (Obj.get raw k), zod_object r raw with
      | Some v, Some o => Some ((k, v) :: o)
      | _, _ => None
      end
  end.

Record tool : Type := {
  name : string;
  description : string;
  shape : list (string * zod);
  cb : Obj.t string -> M tool_result
}.

Definition intervals : list string :=
  ["1min"; "5min"; "15min"; "30min"; "60min"; "daily"; "weekly"; "monthly"].

(** The seven registrations, in the order of the source; each callback
    destructures its arguments. *)
Definition tools : list tool :=
  [ {| name := "get_stock_price";
       description := "获取实时股票价格信息";
       shape := [("symbol", ZString)];
       cb := fun args => get_stock_price (Obj.get args "symbol") |};
    {| name := "get_company_overview";
       description := "获取公司信息和关键指标";
       shape := [("symbol", ZString)];
       cb := fun args => get_company_overview (Obj.get args "symbol") |};
    {| name := "get_daily_time_series";
       description := "获取股票的每日时间序列数据";
       shape := [("symbol", ZString);
                 ("outputsize", ZEnumDefault ["compact"; "full"] "compact")];
       cb := fun args =>
               get_daily_time_series (Obj.get args "symbol")
                 (Obj.get args "outputsize") |};
    {| name := "get_weekly_time_series";
       description := "获取股票的每周时间序列数据";
       shape := [("symbol", ZString)];
       cb := fun args => get_weekly_time_series (Obj.get args "symbol") |};
    {| name := "get_forex_rate";
       description := "获取货币对的汇率";
       shape := [("from_currency", ZString); ("to_currency", ZString)];
       cb := fun args =>
               get_forex_rate (Obj.get args "from_currency")
                 (Obj.get args "to_currency") |};
    {| name := "get_crypto_price";
       description := "获取加密货币价格";
       shape := [("symbol", ZString); ("market", ZString)];
       cb := fun args =>
               get_crypto_price (Obj.get args "symbol")
                 (Obj.get args "market") |};
    {| name := "get_technical_indicator";
       description := "获取股票的技术指标";
       shape := [("symbol", ZString); ("indicator", ZString);
                 ("interval", ZEnumDefault intervals "daily")];
       cb := fun args =>
               get_technical_indicator (Obj.get args "symbol")
                 (Obj.get args "indicator") (Obj.get args "interval") |} ].

(** What a [tools/call] request comes to. *)
Inductive call_outcome : Type :=
| Result (r : tool_result)
| InvalidParams
| ToolNotFound
| ToolDisabled.

(** The names every plain object inherits.  The registry of the SDK is a
    plain object: looking one of these names up finds what the object
    inherits, which is no enabled tool. *)
Definition inherited_names : list string :=
  ["constructor"; "__defineGetter__"; "__defineSetter__"; "hasOwnProperty";
   "__lookupGetter__"; "__lookupSetter__"; "isPrototypeOf";
   "propertyIsEnumerable"; "toString"; "valueOf"; "__proto__";
   "toLocaleString"].

(** The dispatch of [McpServer]: the tool of that name, its shape
    applied to the arguments, then its callback. *)
Definition call_tool (tool_name : string) (raw : Obj.t json) : M call_outcome :=
  match find (fun t => String.eqb (name t) tool_name) tools with
  | None =>
      if existsb (String.eqb tool_name) inherited_names
      then ret ToolDisabled
      else ret ToolNotFound
  | Some t =>
      match zod_object (shape t) raw with
      | None => ret InvalidParams
      | Some args => r <- cb t args ;; ret (Result r)
      end
  end.

End Server.

(** ** Loading the module *)

Inductive event : Type :=
| Uncaught (e : js_error)
| Exit (code : Z)
| ToolRegistered (tool_name : string)
| TransportConnected
| ConsoleLog (line : string).

Definition missing_key : string := "ALPHA_VANTAGE_API_KEY 环境变量是必需的".

Definition running : string := "Alpha Vantage MCP 服务器正在通过 stdio 运行".

(** The statements of the module run on the trace of what the process
    has done so far; one that throws ends the ones after it. *)
Definition Init (A : Type) : Type := list event -> completion A * list event.

Definition init_ret {A} (a : A) : Init A := fun tr => (Normal a, tr).

Definition init_throw {A} (e : js_error) : Init A := fun tr => (Throw e, tr).

Definition init_bind {A B} (c : Init A) (k : A -> Init B) : Init B :=
  fun tr =>
    match c tr with
    | (Normal a, tr') => k a tr'
    | (Throw e, tr') => (Throw e, tr')
    end.

Definition emit (e : event) : Init unit := fun tr => (Normal tt, (tr ++ [e])%list).

(** [const API_KEY = process.env...; if (!API_KEY) throw new Error (...)] *)
Definition check_key (env_key : option string) : Init string :=
  match env_key with
  | Some key =>
      if negb (String.eqb key EmptyString)
      then init_ret key
      else init_throw (Error missing_key)
  | None => init_throw (Error missing_key)
  end.

(** [server.tool (name, ...)], and the registrations one after the other. *)
Definition register (t : tool) : Init unit := emit (ToolRegistered (name t)).

Fixpoint register_all (ts : list tool) : Init unit :=
  match ts with
  | [] => init_ret tt
  | t :: r => init_bind (register t) (fun _ => register_all r)
  end.

(** [main]: the transport is connected, then the line on the console. *)
Definition main : Init unit :=
  init_bind (emit TransportConnected) (fun _ => emit (ConsoleLog running)).

(** The statements of the module in their order: the check of the key,
    the seven registrations, then [main]. *)
Definition index_ts (env_key : option string) : Init string :=
  init_bind (check_key env_key) (fun key =>
  init_bind (register_all (tools key)) (fun _ =>
  init_bind main (fun _ =>
  init_ret key))).

(** Running the statements of a module from an empty trace: an exception
    nothing catches is reported and ends the process with code 1. *)
Definition run_module {A} (body : Init A) : list event * option A :=
  match body [] with
  | (Normal a, tr) => (tr, Some a)
  | (Throw e, tr) => ((tr ++ [Uncaught e; Exit 1])%list, None)
  end.

(** Loading the module.  A running server is the key it holds. *)
Definition load (env_key : option string) : list event * option string :=
  run_module (index_ts env_key).

(** * The vocabulary of the statements *)

(** ** Printed texts *)

(** What may follow a value in a text that [serialize] printed. *)
Definition delim (rest : string) : bool :=
  match rest with
  | EmptyString => true
  | String c _ => Ascii.eqb c Ch.COMMA || Ascii.eqb c Ch.LF
  end.

Fixpoint all_ws (s : string) : bool :=
  match s with
  | EmptyString => true
  | String c r => JSON.is_ws c && all_ws r
  end.

(** The nodes of a value: the fuel its parsing takes. *)
Fixpoint size (v : json) : nat :=
  match v with
  | JArr xs => S (list_sum (map size xs))
  | JObj kvs => S (list_sum (map (fun kv => size (snd kv)) kvs))
  | _ => 1
  end.

(** The first character of a printed value is no whitespace and closes
    nothing. *)
Definition opens (c : ascii) : bool :=
  negb (JSON.is_ws c) && negb (Ascii.eqb c Ch.RBRACK)
  && negb (Ascii.eqb c Ch.RBRACE).

(** [pv] reads a printed [x] back, whatever whitespace is before it and
    whatever delimiter after. *)
Definition reads (pv : string -> option (json * string))
  (text : json -> string) (x : json) : Prop :=
  forall w r, all_ws w = true -> delim r = true ->
              pv (w ++ text x ++ r) = Some (x, r).

(** One member of a printed object. *)
Definition member_text (text : json -> string) (gap : string)
  (kv : string * json) : string :=
  JSON.member gap (fst kv) (text (snd kv)).

(** ** Worlds, replies and requests *)

(** The request [makeAlphaVantageRequest] issues for a parameter object. *)
Definition issued (key : string) (params : AlphaVantageParams) : request :=
  {| url := ALPHA_VANTAGE_BASE;
     query := serialize_params
                (Obj.set (Obj.spread [] params) "apikey" (Some key)) |}.

(** The reply axios ends with for a request, redirections followed. *)
Definition final (w : world) (req : request) : reply :=
  follow (upstream w) maxRedirects req.

Definition after_send (w : world) (req : request) : world :=
  {| upstream := upstream w; sent := (sent w ++ [req])%list; stderr := stderr w |}.

Definition after_log (w : world) (e : js_error) : world :=
  {| upstream := upstream w; sent := sent w;
     stderr := (stderr w ++ [(request_failed, e)])%list |}.

(** What the gateway finds wrong with a reply, if anything. *)
Definition fault (r : reply) : option js_error :=
  match r with
  | Responds st d =>
      if validateStatus st
      then if truthy d then None else Some (Error "无效的响应数据")
      else Some (AxiosError r)
  | _ => Some (AxiosError r)
  end.

Definition payload (r : reply) : json :=
  match r with
  | Responds _ d => d
  | _ => JNull
  end.

(** A quote as the upstream sends it. *)
Definition ibm_quote : json :=
  JObj [("Global Quote",
         JObj [("01. symbol", JStr "IBM"); ("05. price", JStr "243.1700");
               ("06. volume", JNum 3021438)])].

(** A world whose upstream has moved: the fixed URL answers 302 with the
    new location, and the new location answers with the quote. *)
Definition moved : world :=
  {| upstream := fun req =>
       if String.eqb (url req) ALPHA_VANTAGE_BASE
       then Redirects 302 {| url := "https://www.alphavantage.co/v2/query";
                             query := query req |}
       else Responds 200 ibm_quote;
     sent := []; stderr := [] |}.

(** A world whose upstream gives one reply to every request. *)
Definition mock (r : reply) : world :=
  {| upstream := fun _ => r; sent := []; stderr := [] |}.

(** The failure text of each tool, by name. *)
Definition failure_messages : list (string * string) :=
  [ ("get_stock_price", "获取股票数据失败");
    ("get_company_overview", "获取公司数据失败");
    ("get_daily_time_series", "获取时间序列数据失败");
    ("get_weekly_time_series", "获取每周时间序列数据失败");
    ("get_forex_rate", "获取外汇汇率数据失败");
    ("get_crypto_price", "获取加密货币价格数据失败");
    ("get_technical_indicator", "获取技术指标数据失败") ].

(** The bodies that are not empty and parse to a falsy value. *)
Definition falsy_bodies : list (string * json) :=
  [ ("0", JNum 0); ("false", JBool false); ("null", JNull);
    (String Ch.DQ (String Ch.DQ EmptyString), JStr EmptyString) ].

(** The causes of a failed call: the network, a timeout, a status that is
    not 2xx, a 2xx reply without data (an empty body among them). *)
Inductive failure : reply -> Prop :=
| network_error c : failure (NetworkFault c)
| timeout : failure TimedOut
| bad_status st d : validateStatus st = false -> failure (Responds st d)
| no_data st d :
    validateStatus st = true -> truthy d = false -> failure (Responds st d).

(** The query pairs of one name. *)
Definition named (k : string) (q : list (string * string))
  : list (string * string) :=
  filter (fun kv => String.eqb (fst kv) k) q.

(** What a request of this server looks like: the fixed URL, one
    [function], one [apikey] holding the key. *)
Definition well_formed_request (key : string) (req : request) : Prop :=
  url req = ALPHA_VANTAGE_BASE
  /\ (exists f, named "function" (query req) = [("function", f)])
  /\ named "apikey" (query req) = [("apikey", key)].

(** The tools that take a symbol only, with the upstream function each
    one names. *)
Definition symbol_tools : list (string * string) :=
  [ ("get_stock_price", "GLOBAL_QUOTE");
    ("get_company_overview", "OVERVIEW");
    ("get_weekly_time_series", "TIME_SERIES_WEEKLY") ].

(** * Properties *)

(** ** Strings *)

Lemma append_assoc (a b c : string) : (a ++ b) ++ c = a ++ (b ++ c).
Proof. induction a as [|x a IH]; simpl; [reflexivity | now rewrite IH]. Qed.

Lemma append_nil_r (a : string) : a ++ EmptyString = a.
Proof. induction a as [|x a IH]; simpl; [reflexivity | now rewrite IH]. Qed.

Lemma length_append (a b : string) :
  String.length (a ++ b) = String.length a + String.length b.
Proof. induction a as [|x a IH]; simpl; [reflexivity | now rewrite IH]. Qed.

(** ** Numbers: the digits printed are the digits read *)

Module NumberFacts.
Import JSON.

Lemma delim_not_digit c r : delim (String c r) = true -> digit_con c = None.
Proof.
  simpl. intros H. apply orb_true_iff in H.
  destruct H as [H|H]; apply Ascii.eqb_eq in H; subst c; reflexivity.
Qed.

Lemma delim_integer_ends rest : delim rest = true -> integer_ends rest = true.
Proof.
  destruct rest as [|c r]; [reflexivity|].
  simpl. intros H. apply orb_true_iff in H.
  destruct H as [H|H]; apply Ascii.eqb_eq in H; subst c; reflexivity.
Qed.

Lemma read_digits_printed d rest :
  delim rest = true ->
  read_digits (NilEmpty.string_of_uint d ++ rest) = (d, rest).
Proof.
  intros Hd.
  induction d; simpl; try (rewrite IHd; reflexivity).
  destruct rest as [|c r]; [reflexivity|].
  simpl. now rewrite (delim_not_digit _ _ Hd).
Qed.

Lemma nzhead_no_zero d : forall d', nzhead d <> D0 d'.
Proof. induction d; simpl; intros d'; try discriminate. apply IHd. Qed.

(** A positive number is printed without a leading zero. *)
Lemma to_uint_head p :
  match Pos.to_uint p with
  | Nil | D0 _ => False
  | _ => True
  end.
Proof.
  pose proof (DecimalPos.Unsigned.to_of (Pos.to_uint p)) as H.
  rewrite DecimalPos.Unsigned.of_to in H. simpl in H.
  pose proof (DecimalPos.Unsigned.to_uint_nonzero p) as Hz.
  pose proof (DecimalPos.Unsigned.to_uint_nonnil p) as Hn.
  destruct (Pos.to_uint p) as [|d| | | | | | | | |] eqn:E; try exact I.
  - now apply Hn.
  - unfold unorm in H.
    destruct (nzhead (D0 d)) eqn:Ez; try discriminate.
    + now apply Hz.
    + now apply nzhead_no_zero in Ez.
Qed.

Lemma of_to_uint p : N.of_uint (Pos.to_uint p) = Npos p.
Proof. apply DecimalPos.Unsigned.of_to. Qed.

Lemma number_of_printed neg p rest :
  safe_integer (Zpos p) = true ->
  number_of_digits neg (Pos.to_uint p) rest
  = Some (JNum (if neg then Zneg p else Zpos p), rest).
Proof.
  intros Hs. pose proof (to_uint_head p) as Hh. pose proof (of_to_uint p) as Ho.
  unfold number_of_digits.
  destruct (Pos.to_uint p); try contradiction; cbv zeta; rewrite Ho;
    change (Z.of_N (Npos p)) with (Zpos p); rewrite Hs;
    destruct neg; reflexivity.
Qed.

Lemma safe_neg p : safe_integer (Zneg p) = true -> safe_integer (Zpos p) = true.
Proof. unfold safe_integer. intros H. exact H. Qed.

Lemma parse_number_printed n rest :
  safe_integer n = true ->
  delim rest = true ->
  parse_number (number_to_string n ++ rest) = Some (JNum n, rest).
Proof.
  intros Hn Hd. pose proof (delim_integer_ends _ Hd) as He.
  destruct n as [|p|p]; unfold parse_number.
  - simpl. replace (read_digits rest) with (Nil, rest).
    + now rewrite He.
    + destruct rest as [|c r]; [reflexivity|].
      simpl. now rewrite (delim_not_digit _ _ Hd).
  - pose proof (to_uint_head p) as Hh.
    simpl number_to_string.
    assert (Hm : forall t, match NilEmpty.string_of_uint (Pos.to_uint p) ++ t with
                 | String c r => if Ascii.eqb c Ch.MINUS then (true, r)
                                 else (false, NilEmpty.string_of_uint (Pos.to_uint p) ++ t)
                 | EmptyString => (false, NilEmpty.string_of_uint (Pos.to_uint p) ++ t)
                 end = (false, NilEmpty.string_of_uint (Pos.to_uint p) ++ t)).
    { intros t. destruct (Pos.to_uint p); try contradiction; reflexivity. }
    rewrite Hm, (read_digits_printed _ _ Hd), He.
    now rewrite number_of_printed.
  - simpl number_to_string. cbn [append].
    change (Ascii.eqb Ch.MINUS Ch.MINUS) with true. cbv iota.
    rewrite (read_digits_printed _ _ Hd), He.
    now rewrite (number_of_printed true p rest (safe_neg p Hn)).
Qed.

Lemma number_starts n :
  exists c t, number_to_string n = String c t
              /\ (Ascii.eqb c Ch.MINUS = true \/ exists f, digit_con c = Some f).
Proof.
  destruct n as [|p|p]; simpl.
  - exists "0"%char, EmptyString. split; [reflexivity|]. right. now exists D0.
  - pose proof (to_uint_head p) as Hh.
    destruct (Pos.to_uint p); try contradiction; simpl;
      eexists; eexists; (split; [reflexivity|]); right; eexists; reflexivity.
  - eexists; eexists. split; [reflexivity|]. now left.
Qed.

End NumberFacts.

(** ** String literals: what [quote] escapes, [parse_chars] reads back *)

Module StringFacts.
Import JSON.

Lemma parse_chars_step c t :
  parse_chars (quote_char c ++ t) = prepend (str1 c) (parse_chars t).
Proof.
  destruct c as [[|] [|] [|] [|] [|] [|] [|] [|]]; reflexivity.
Qed.

Lemma parse_chars_quoted s rest :
  parse_chars (quote_chars s ++ String Ch.DQ rest) = Some (s, rest).
Proof.
  induction s as [|c s IH]; [reflexivity|].
  simpl quote_chars. rewrite append_assoc, parse_chars_step, IH.
  reflexivity.
Qed.

Lemma skip_ws_app w s : all_ws w = true -> skip_ws (w ++ s) = skip_ws s.
Proof.
  induction w as [|c w IH]; simpl; [reflexivity|].
  intros H. apply andb_true_iff in H. destruct H as [Hc Hw].
  rewrite Hc. now apply IH.
Qed.

Lemma skip_ws_stop c s : is_ws c = false -> skip_ws (String c s) = String c s.
Proof. intros H. simpl. now rewrite H. Qed.

Lemma all_ws_app a b : all_ws a = true -> all_ws b = true -> all_ws (a ++ b) = true.
Proof.
  induction a as [|c a IH]; simpl; [auto|].
  intros H Hb. apply andb_true_iff in H. destruct H as [Hc Ha].
  rewrite Hc. now apply IH.
Qed.

Lemma all_ws_spaces n : all_ws (spaces n) = true.
Proof. induction n; simpl; auto. Qed.

End StringFacts.

(** ** Objects: setting the properties of an ordered object in order *)

Module ObjFacts.

Lemma ordered_app_l a b : Obj.ordered (a ++ b)%list = true -> Obj.ordered a = true.
Proof.
  induction a as [|k a IH]; simpl; [reflexivity|].
  intros H. apply andb_true_iff in H. destruct H as [Hk Ha].
  rewrite forallb_app in Hk. apply andb_true_iff in Hk.
  destruct Hk as [Hk _]. rewrite Hk. now apply IH.
Qed.

Section Setting.
Variable V : Type.
Implicit Types (o src dst : Obj.t V) (k : string) (v : V).

Lemma set_last o k v :
  Obj.ordered (map fst (o ++ [(k, v)])%list) = true ->
  Obj.get o k = None /\ Obj.insert o k v = (o ++ [(k, v)])%list.
Proof.
  induction o as [|[k' v'] o IH]; simpl; [auto|].
  intros H. apply andb_true_iff in H. destruct H as [Hk Ho].
  rewrite map_app, forallb_app in Hk. apply andb_true_iff in Hk.
  destruct Hk as [_ Hk]. simpl in Hk. rewrite andb_true_r in Hk.
  apply andb_true_iff in Hk. destruct Hk as [Hne Hb].
  apply negb_true_iff in Hne. rewrite Hne, Hb.
  destruct (IH Ho) as [Hg Hi]. now rewrite Hg, Hi.
Qed.

Lemma set_ordered o k v :
  Obj.ordered (map fst (o ++ [(k, v)])%list) = true ->
  Obj.set o k v = (o ++ [(k, v)])%list.
Proof.
  intros H. destruct (set_last _ _ _ H) as [Hg Hi].
  unfold Obj.set, Obj.has. now rewrite Hg.
Qed.

(** Spreading an ordered object into a fresh one copies it. *)
Lemma spread_ordered src dst :
  Obj.ordered (map fst (dst ++ src)%list) = true ->
  Obj.spread dst src = (dst ++ src)%list.
Proof.
  revert dst. induction src as [|[k v] src IH]; intros dst H; simpl.
  - now rewrite List.app_nil_r.
  - unfold Obj.spread in *. simpl.
    replace (dst ++ (k, v) :: src)%list
      with ((dst ++ [(k, v)]) ++ src)%list in * by now rewrite <- List.app_assoc.
    rewrite set_ordered.
    + now apply IH.
    + rewrite map_app in H. now apply ordered_app_l in H.
Qed.
End Setting.

End ObjFacts.

(** ** [JSON.parse] reads back what [JSON.stringify] printed *)

Module Roundtrip.
Import JSON NumberFacts StringFacts.

Lemma size_pos v : 1 <= size v.
Proof. destruct v; simpl; lia. Qed.

Lemma length_le_sum {A} (f : A -> nat) (l : list A) :
  (forall x, 1 <= f x) -> List.length l <= list_sum (map f l).
Proof.
  intros Hf. induction l as [|x l IH]; simpl; [lia|].
  specialize (Hf x). lia.
Qed.

Lemma in_le_sum {A} (f : A -> nat) (l : list A) x :
  In x l -> f x <= list_sum (map f l).
Proof.
  induction l as [|y l IH]; simpl; [tauto|].
  intros [->|H]; [lia|]. specialize (IH H). lia.
Qed.

Lemma digit_opens c f : digit_con c = Some f -> opens c = true.
Proof.
  destruct c as [[|] [|] [|] [|] [|] [|] [|] [|]]; simpl;
    intros H; try discriminate H; reflexivity.
Qed.

Lemma serialize_opens gap ind v :
  exists c t, serialize gap ind v = String c t /\ opens c = true.
Proof.
  destruct v as [|[|]|n| |s|xs|kvs]; simpl;
    try (eexists; eexists; split; [reflexivity|reflexivity]).
  - destruct (number_starts n) as (c & t & E & [Hc|[f Hc]]).
    + apply Ascii.eqb_eq in Hc. subst c. rewrite E. now eexists; eexists.
    + rewrite E. eexists; eexists. split; [reflexivity|]. eapply digit_opens; eauto.
  - unfold wrap. destruct (map _ xs); [|destruct (String.eqb gap EmptyString)];
      eexists; eexists; split; reflexivity.
  - unfold wrap. destruct (map _ kvs); [|destruct (String.eqb gap EmptyString)];
      eexists; eexists; split; reflexivity.
Qed.

Lemma opens_not_ws c : opens c = true -> is_ws c = false.
Proof.
  unfold opens. intros H. apply andb_true_iff in H. destruct H as [H _].
  apply andb_true_iff in H. destruct H as [H _]. now apply negb_true_iff.
Qed.

Lemma opens_not_rbrack c : opens c = true -> Ascii.eqb c Ch.RBRACK = false.
Proof.
  unfold opens. intros H. apply andb_true_iff in H. destruct H as [H _].
  apply andb_true_iff in H. destruct H as [_ H]. now apply negb_true_iff.
Qed.

Section Loops.
Variable pv : string -> option (json * string).
Variable text : json -> string.
Variables ind ind' : string.
Hypothesis Hind : all_ws ind = true.
Hypothesis Hind' : all_ws ind' = true.

Let sep : string := String Ch.COMMA (String Ch.LF ind').

Lemma parse_elements_printed xs :
  forall n w rest,
    xs <> [] -> List.length xs <= n -> all_ws w = true ->
    Forall (reads pv text) xs ->
    parse_elements pv n
      (w ++ String.concat sep (map text xs)
         ++ String Ch.LF (ind ++ String Ch.RBRACK rest))
    = Some (xs, rest).
Proof.
  induction xs as [|x xs IH]; intros n w rest Hne Hn Hw Hall; [congruence|].
  inversion Hall as [|? ? Hx Hxs]; subst.
  destruct n as [|m]; [simpl in Hn; lia|].
  destruct xs as [|y ys].
  - simpl. rewrite Hx by (auto; reflexivity).
    change (skip_ws (String Ch.LF (ind ++ String Ch.RBRACK rest)))
      with (skip_ws (ind ++ String Ch.RBRACK rest)).
    rewrite skip_ws_app by assumption. reflexivity.
  - change (String.concat sep (map text (x :: y :: ys)))
      with (text x ++ sep ++ String.concat sep (map text (y :: ys))).
    rewrite !append_assoc. unfold sep at 1. cbn [append].
    cbn [parse_elements]. rewrite Hx by (auto; reflexivity).
    rewrite skip_ws_stop by reflexivity.
    change (Ascii.eqb Ch.COMMA Ch.COMMA) with true. cbv iota.
    specialize (IH m (String Ch.LF ind') rest).
    cbn [append] in IH. rewrite IH; [reflexivity|discriminate| |simpl; now rewrite Hind'|assumption].
    simpl in Hn |- *. lia.
Qed.

Variable gap : string.
Hypothesis Hgap : String.eqb gap EmptyString = false.

Lemma member_text_app k v R :
  member_text text gap (k, v) ++ R
  = String Ch.DQ (quote_chars k
      ++ String Ch.DQ (String Ch.COLON (String Ch.SP (text v ++ R)))).
Proof.
  unfold member_text, member, quote. rewrite Hgap. simpl.
  now rewrite !append_assoc.
Qed.

Lemma parse_members_step n acc w k v R :
  all_ws w = true -> reads pv text v -> delim R = true ->
  Obj.ordered (map fst (acc ++ [(k, v)])%list) = true ->
  parse_members pv (S n) acc (w ++ member_text text gap (k, v) ++ R)
  = match skip_ws R with
    | String d r4 =>
        if Ascii.eqb d Ch.COMMA
        then parse_members pv n (acc ++ [(k, v)])%list r4
        else if Ascii.eqb d Ch.RBRACE
        then Some ((acc ++ [(k, v)])%list, r4)
        else None
    | EmptyString => None
    end.
Proof.
  intros Hw Hv HR Ho.
  rewrite member_text_app. cbn [parse_members].
  rewrite skip_ws_app by assumption.
  rewrite skip_ws_stop by reflexivity.
  change (Ascii.eqb Ch.DQ Ch.DQ) with true. cbv iota.
  rewrite parse_chars_quoted.
  rewrite skip_ws_stop by reflexivity.
  change (Ascii.eqb Ch.COLON Ch.COLON) with true. cbv iota.
  change (String Ch.SP (text v ++ R)) with (str1 Ch.SP ++ text v ++ R).
  rewrite Hv by (auto; reflexivity).
  now rewrite (ObjFacts.set_ordered _ _ _ Ho).
Qed.

Lemma parse_members_printed kvs :
  forall n acc w rest,
    kvs <> [] -> List.length kvs <= n -> all_ws w = true ->
    Forall (fun kv => reads pv text (snd kv)) kvs ->
    Obj.ordered (map fst (acc ++ kvs)%list) = true ->
    parse_members pv n acc
      (w ++ String.concat sep (map (member_text text gap) kvs)
         ++ String Ch.LF (ind ++ String Ch.RBRACE rest))
    = Some ((acc ++ kvs)%list, rest).
Proof.
  induction kvs as [|[k v] kvs IH];
    intros n acc w rest Hne Hn Hw Hall Ho; [congruence|].
  inversion Hall as [|? ? Hx Hxs]; subst. simpl in Hx.
  destruct n as [|m]; [simpl in Hn; lia|].
  assert (Ho1 : Obj.ordered (map fst (acc ++ [(k, v)])%list) = true).
  { replace (acc ++ (k, v) :: kvs)%list
      with ((acc ++ [(k, v)]) ++ kvs)%list in Ho
      by now rewrite <- List.app_assoc.
    rewrite map_app in Ho. now apply ObjFacts.ordered_app_l in Ho. }
  destruct kvs as [|kv' kvs'].
  - cbn [map String.concat].
    rewrite parse_members_step by (auto; reflexivity).
    change (skip_ws (String Ch.LF (ind ++ String Ch.RBRACE rest)))
      with (skip_ws (ind ++ String Ch.RBRACE rest)).
    rewrite skip_ws_app by assumption. reflexivity.
  - change (String.concat sep (map (member_text text gap) ((k, v) :: kv' :: kvs')))
      with (member_text text gap (k, v) ++ sep
            ++ String.concat sep (map (member_text text gap) (kv' :: kvs'))).
    rewrite !append_assoc. unfold sep at 1. cbn [append].
    rewrite parse_members_step by (auto; reflexivity).
    rewrite skip_ws_stop by reflexivity.
    change (Ascii.eqb Ch.COMMA Ch.COMMA) with true. cbv iota.
    specialize (IH m (acc ++ [(k, v)])%list (String Ch.LF ind') rest).
    cbn [append] in IH. rewrite IH.
    + now rewrite <- List.app_assoc.
    + discriminate.
    + simpl in Hn |- *. lia.
    + simpl. now rewrite Hind'.
    + assumption.
    + now rewrite <- List.app_assoc.
Qed.

End Loops.

Lemma concat_head sep p ps : exists u, String.concat sep (p :: ps) = p ++ u.
Proof.
  destruct ps as [|q ps]; simpl.
  - exists EmptyString. now rewrite append_nil_r.
  - eexists. reflexivity.
Qed.

Lemma wrap_cons gap ind l r p ps rest :
  String.eqb gap EmptyString = false ->
  wrap gap ind l r (p :: ps) ++ rest
  = String l (String Ch.LF ((ind ++ gap)
      ++ String.concat (String Ch.COMMA (String Ch.LF (ind ++ gap))) (p :: ps)
      ++ String Ch.LF (ind ++ String r rest))).
Proof.
  intros Hgap. unfold wrap. rewrite Hgap. cbn [append].
  rewrite !append_assoc. cbn [append]. rewrite !append_assoc. reflexivity.
Qed.

Lemma minus_or_digit_dispatch c :
  (Ascii.eqb c Ch.MINUS = true \/ exists f, digit_con c = Some f) ->
  is_ws c = false /\ Ascii.eqb c "n" = false /\ Ascii.eqb c "t" = false
  /\ Ascii.eqb c "f" = false /\ Ascii.eqb c Ch.DQ = false
  /\ Ascii.eqb c Ch.LBRACK = false /\ Ascii.eqb c Ch.LBRACE = false.
Proof.
  intros [H|[f H]].
  - apply Ascii.eqb_eq in H. subst c. repeat split.
  - destruct c as [[|] [|] [|] [|] [|] [|] [|] [|]]; simpl in H;
      try discriminate H; repeat split.
Qed.

Lemma parse_value_number f n w rest :
  safe_integer n = true -> all_ws w = true -> delim rest = true ->
  parse_value (S f) (w ++ number_to_string n ++ rest) = Some (JNum n, rest).
Proof.
  intros Hn Hw Hr. pose proof (parse_number_printed n _ Hn Hr) as Hp.
  destruct (number_starts n) as (c & t & E & Hc).
  apply minus_or_digit_dispatch in Hc.
  destruct Hc as (H0 & H1 & H2 & H3 & H4 & H5 & H6).
  rewrite E in *. cbn [parse_value append] in *.
  rewrite skip_ws_app by assumption. rewrite skip_ws_stop by assumption.
  now rewrite H1, H2, H3, H4, H5, H6, Hp.
Qed.

Section Printed.
Variable gap : string.
Hypothesis Hgap : String.eqb gap EmptyString = false.
Hypothesis Hgap_ws : all_ws gap = true.

Lemma parse_value_printed v :
  forall fuel ind w rest,
    size v < fuel -> all_ws ind = true -> all_ws w = true ->
    delim rest = true -> wf_json v = true ->
    parse_value fuel (w ++ serialize gap ind v ++ rest) = Some (v, rest).
Proof.
  induction v as [|b|n| |s|xs IH|kvs IH] using json_ind;
    intros fuel ind w rest Hf Hi Hw Hr Hwf;
    (destruct fuel as [|f]; [inversion Hf|]).
  - cbn [parse_value serialize]. rewrite skip_ws_app by assumption. reflexivity.
  - destruct b; cbn [parse_value serialize];
      rewrite skip_ws_app by assumption; reflexivity.
  - now apply parse_value_number.
  - discriminate Hwf.
  - cbn [parse_value serialize]. unfold quote. cbn [append].
    rewrite skip_ws_app by assumption. rewrite skip_ws_stop by reflexivity.
    rewrite append_assoc. cbn [append].
    change (Ascii.eqb Ch.DQ "n") with false.
    change (Ascii.eqb Ch.DQ "t") with false.
    change (Ascii.eqb Ch.DQ "f") with false.
    change (Ascii.eqb Ch.DQ Ch.DQ) with true. cbv iota.
    change (str1 Ch.DQ ++ rest) with (String Ch.DQ rest).
    now rewrite parse_chars_quoted.
  - cbn [serialize]. destruct xs as [|x xs'].
    + cbn [parse_value map wrap two append].
      rewrite skip_ws_app by assumption. reflexivity.
    + set (ind' := ind ++ gap).
      assert (Hi' : all_ws ind' = true) by now apply all_ws_app.
      cbn [map]. rewrite wrap_cons by assumption. fold ind'.
      cbn [parse_value]. rewrite skip_ws_app by assumption.
      rewrite skip_ws_stop by reflexivity.
      change (Ascii.eqb Ch.LBRACK "n") with false.
      change (Ascii.eqb Ch.LBRACK "t") with false.
      change (Ascii.eqb Ch.LBRACK "f") with false.
      change (Ascii.eqb Ch.LBRACK Ch.DQ) with false.
      change (Ascii.eqb Ch.LBRACK Ch.LBRACK) with true. cbv iota.
      simpl in Hf. cbn [wf_json] in Hwf.
      assert (Hread : Forall (reads (parse_value f) (serialize gap ind')) (x :: xs')).
      { rewrite Forall_forall in IH |- *. intros y Hy w' r' Hw' Hr'.
        apply IH; auto.
        - pose proof (in_le_sum size (x :: xs') y Hy). simpl in H. lia.
        - rewrite forallb_forall in Hwf. now apply Hwf. }
      pose proof (@parse_elements_printed (parse_value f) (serialize gap ind')
                    ind ind' Hi Hi' (x :: xs') f (String Ch.LF ind') rest)
        as Hpe.
      cbn [append map] in Hpe. rewrite Hpe; clear Hpe.
      * destruct (concat_head (String Ch.COMMA (String Ch.LF ind'))
                    (serialize gap ind' x) (map (serialize gap ind') xs'))
          as [u Eu].
        destruct (serialize_opens gap ind' x) as (c0 & t0 & E0 & Ho).
        rewrite Eu, E0.
        change (skip_ws (String Ch.LF (ind' ++ (String c0 t0 ++ u)
                 ++ String Ch.LF (ind ++ String Ch.RBRACK rest))))
          with (skip_ws (ind' ++ (String c0 t0 ++ u)
                 ++ String Ch.LF (ind ++ String Ch.RBRACK rest))).
        rewrite skip_ws_app by assumption. cbn [append].
        rewrite skip_ws_stop by now apply opens_not_ws.
        now rewrite (opens_not_rbrack _ Ho).
      * discriminate.
      * pose proof (length_le_sum size (x :: xs') size_pos). simpl in H |- *. lia.
      * simpl. assumption.
      * assumption.
  - cbn [serialize]. destruct kvs as [|[k v] kvs'].
    + cbn [parse_value map wrap two append].
      rewrite skip_ws_app by assumption. reflexivity.
    + set (ind' := ind ++ gap).
      assert (Hi' : all_ws ind' = true) by now apply all_ws_app.
      cbn [map]. rewrite wrap_cons by assumption. fold ind'.
      cbn [parse_value]. rewrite skip_ws_app by assumption.
      rewrite skip_ws_stop by reflexivity.
      change (Ascii.eqb Ch.LBRACE "n") with false.
      change (Ascii.eqb Ch.LBRACE "t") with false.
      change (Ascii.eqb Ch.LBRACE "f") with false.
      change (Ascii.eqb Ch.LBRACE Ch.DQ) with false.
      change (Ascii.eqb Ch.LBRACE Ch.LBRACK) with false.
      change (Ascii.eqb Ch.LBRACE Ch.LBRACE) with true. cbv iota.
      simpl in Hf. cbn [wf_json] in Hwf.
      apply andb_true_iff in Hwf. destruct Hwf as [Hord Hwf].
      assert (Hread : Forall (fun kv => reads (parse_value f) (serialize gap ind') (snd kv))
                        ((k, v) :: kvs')).
      { rewrite Forall_forall in IH |- *. intros y Hy w' r' Hw' Hr'.
        apply IH; auto.
        - pose proof (in_le_sum (fun kv => size (snd kv)) ((k, v) :: kvs') y Hy).
          simpl in H. lia.
        - rewrite forallb_forall in Hwf. now apply Hwf. }
      pose proof (@parse_members_printed (parse_value f) (serialize gap ind')
                    ind ind' Hi Hi' gap Hgap ((k, v) :: kvs') f []
                    (String Ch.LF ind') rest)
        as Hpm.
      fold (member_text (serialize gap ind') gap (k, v)).
      change (map (fun kv => member gap (fst kv) (serialize gap ind' (snd kv))) kvs')
        with (map (member_text (serialize gap ind') gap) kvs').
      cbn [append map app] in Hpm. rewrite Hpm; clear Hpm.
      * destruct (concat_head (String Ch.COMMA (String Ch.LF ind'))
                    (member_text (serialize gap ind') gap (k, v))
                    (map (member_text (serialize gap ind') gap) kvs'))
          as [u Eu].
        rewrite Eu. rewrite !append_assoc. rewrite member_text_app by assumption.
        change (skip_ws (String Ch.LF ?x)) with (skip_ws x).
        rewrite skip_ws_app by assumption. reflexivity.
      * discriminate.
      * pose proof (length_le_sum (fun kv => size (snd kv)) ((k, v) :: kvs')
                      (fun kv => size_pos (snd kv))).
        simpl in H |- *. lia.
      * simpl. assumption.
      * assumption.
      * assumption.
Qed.

End Printed.

(** The text is at least as long as the value has nodes, so the fuel
    [parse] takes from the text is enough. *)

Lemma concat_length sep ps :
  list_sum (map String.length ps) <= String.length (String.concat sep ps).
Proof.
  induction ps as [|p ps IH]; [simpl; lia|].
  destruct ps as [|q ps]; [simpl; lia|].
  change (String.concat sep (p :: q :: ps))
    with (p ++ sep ++ String.concat sep (q :: ps)).
  rewrite !length_append. simpl in IH |- *. lia.
Qed.

Lemma wrap_length gap ind l r ps :
  S (list_sum (map String.length ps)) <= String.length (wrap gap ind l r ps).
Proof.
  unfold wrap. destruct ps as [|p ps]; [simpl; lia|].
  pose proof (concat_length (str1 Ch.COMMA) (p :: ps)) as H1.
  pose proof (concat_length (String Ch.COMMA (String Ch.LF (ind ++ gap))) (p :: ps)) as H2.
  destruct (String.eqb gap EmptyString); cbn [String.length];
    rewrite !length_append; lia.
Qed.

Lemma sum_le_sum {A} (f g : A -> nat) (l : list A) :
  Forall (fun x => f x <= g x) l -> list_sum (map f l) <= list_sum (map g l).
Proof.
  induction 1 as [|x l Hx _ IH]; simpl; lia.
Qed.

Lemma size_le_length gap v : forall ind, size v <= String.length (serialize gap ind v).
Proof.
  induction v as [|b|n| |s|xs IH|kvs IH] using json_ind; intros ind.
  - simpl; lia.
  - destruct b; simpl; lia.
  - destruct (number_starts n) as (c & t & E & _). simpl. rewrite E. simpl. lia.
  - simpl; lia.
  - simpl. lia.
  - cbn [size serialize].
    pose proof (wrap_length gap ind Ch.LBRACK Ch.RBRACK
                  (map (serialize gap (ind ++ gap)) xs)) as H.
    rewrite map_map in H.
    assert (list_sum (map size xs)
            <= list_sum (map (fun x => String.length (serialize gap (ind ++ gap) x)) xs)).
    { apply sum_le_sum. eapply Forall_impl; [|exact IH]. intros x Hx. apply Hx. }
    lia.
  - cbn [size serialize].
    pose proof (wrap_length gap ind Ch.LBRACE Ch.RBRACE
                  (map (fun kv => member gap (fst kv)
                                    (serialize gap (ind ++ gap) (snd kv))) kvs)) as H.
    rewrite map_map in H.
    assert (list_sum (map (fun kv => size (snd kv)) kvs)
            <= list_sum (map (fun kv => String.length
                                (member gap (fst kv)
                                   (serialize gap (ind ++ gap) (snd kv)))) kvs)).
    { apply sum_le_sum. eapply Forall_impl; [|exact IH]. intros [k v] Hx.
      cbn [fst snd] in *. specialize (Hx (ind ++ gap)).
      unfold member. rewrite length_append.
      destruct (String.eqb gap EmptyString); cbn [String.length]; lia. }
    lia.
Qed.

(** A value of the runtime, printed with a positive indentation, parses
    back to itself. *)
Lemma parse_stringify v space :
  1 <= space -> wf_json v = true ->
  JSON.parse (JSON.stringify v space) = Some v.
Proof.
  intros Hs Hwf. unfold JSON.parse, JSON.stringify.
  set (gap := spaces (Nat.min space 10)).
  assert (Hgap : String.eqb gap EmptyString = false).
  { unfold gap. destruct space as [|k]; [lia|]. reflexivity. }
  pose proof (@parse_value_printed gap Hgap (all_ws_spaces _) v
                (S (String.length (serialize gap EmptyString v)))
                EmptyString EmptyString EmptyString) as H.
  cbn [append] in H. rewrite append_nil_r in H.
  rewrite H; try reflexivity; try assumption.
  pose proof (size_le_length gap v EmptyString). lia.
Qed.

End Roundtrip.

(** ** The gateway, reply by reply *)

(** A reply that is no redirection is the reply the client ends with. *)
Lemma follow_direct up n req :
  (forall st l, up req <> Redirects st l) -> follow up n req = up req.
Proof.
  intros H. destruct n; simpl; destruct (up req) eqn:E; try reflexivity;
    now contradiction (H status0 location).
Qed.

Lemma final_direct w req :
  (forall st l, upstream w req <> Redirects st l) -> final w req = upstream w req.
Proof. apply follow_direct. Qed.

Lemma failure_direct w req : failure (upstream w req) -> final w req = upstream w req.
Proof.
  intros H. apply final_direct. intros st l E. rewrite E in H. inversion H.
Qed.

Lemma gateway_run key params w :
  makeAlphaVantageRequest key params w
  = match fault (final w (issued key params)) with
    | None => (Normal (payload (final w (issued key params))),
               after_send w (issued key params))
    | Some e => (Normal JNull, after_log (after_send w (issued key params)) e)
    end.
Proof.
  unfold makeAlphaVantageRequest, try_catch, bind, axios_get, fault, payload.
  fold (issued key params). fold (final w (issued key params)).
  destruct (final w (issued key params)) as [st d|st l|c|]; try reflexivity.
  destruct (validateStatus st); [|reflexivity].
  cbn [data]. destruct (truthy d); reflexivity.
Qed.

Lemma fault_none_truthy r : fault r = None -> truthy (payload r) = true.
Proof.
  destruct r as [st d|st l|c|]; simpl; try discriminate.
  destruct (validateStatus st); [|discriminate].
  destruct (truthy d); [reflexivity|discriminate].
Qed.

(** The gateway completes normally, with [null] or a truthy value. *)
Lemma gateway_returns key params w :
  exists v, fst (makeAlphaVantageRequest key params w) = Normal v
            /\ (v = JNull \/ truthy v = true).
Proof.
  rewrite gateway_run.
  destruct (fault (final w (issued key params))) eqn:E; simpl.
  - exists JNull. auto.
  - eexists. split; [reflexivity|]. right. now apply fault_none_truthy.
Qed.

(** Every callback is one call of the gateway, then one text block. *)
Lemma cb_run key t args :
  In t (tools key) ->
  exists params msg,
    In (name t, msg) failure_messages
    /\ forall w,
        cb t args w
        = match makeAlphaVantageRequest key params w with
          | (Normal v, w') =>
              (Normal (text_result
                         (if truthy v then JSON.stringify v 2 else msg)), w')
          | (Throw e, w') => (Throw e, w')
          end.
Proof.
  intros Hin. unfold tools in Hin.
  repeat (destruct Hin as [<-|Hin]); [..|contradiction];
    cbn [cb name];
    (eexists; eexists; split; [cbn; tauto|]);
    intros w;
    unfold get_stock_price, get_company_overview, get_daily_time_series,
      get_weekly_time_series, get_forex_rate, get_crypto_price,
      get_technical_indicator;
    match goal with
    | |- bind (makeAlphaVantageRequest key ?p) _ w = ?R =>
        match R with
        | context [makeAlphaVantageRequest key ?q w] => unify p q
        end;
        unfold bind;
        destruct (makeAlphaVantageRequest key p w) as [[v|e] w']
    end; try reflexivity;
    match goal with
    | |- context [truthy ?x] => destruct (truthy x)
    end; reflexivity.
Qed.

(** A callback whose gateway call returns [null] answers with the
    failure text of its tool. *)
Lemma cb_null key t args w :
  In t (tools key) ->
  (forall params, fst (makeAlphaVantageRequest key params w) = Normal JNull) ->
  exists msg,
    In (name t, msg) failure_messages
    /\ fst (cb t args w)
       = Normal {| content := [ {| type := "text"; text := msg |} ] |}.
Proof.
  intros Hin Hg. destruct (cb_run args Hin) as (params & msg & Hmsg & Hrun).
  exists msg. split; [assumption|]. rewrite Hrun. specialize (Hg params).
  destruct (makeAlphaVantageRequest key params w) as [[u|e] w'];
    simpl in Hg; [|discriminate]. injection Hg as ->. reflexivity.
Qed.

(** ** The tools *)




(** C2: for each of the seven tools, in a world where the gateway returns
    [null], the result is one text block with the failure text of that
    tool; the seven texts are pairwise different, one for each registered
    name; and the callback always completes normally, no exception
    leaves it. *)
Theorem tool_answers_its_failure_text key t args w :
  In t (tools key) ->
  (map fst failure_messages = map name (tools key)
   /\ NoDup (map fst failure_messages)
   /\ NoDup (map snd failure_messages))
  /\ (exists r, fst (cb t args w) = Normal r)
  /\ ((forall params, fst (makeAlphaVantageRequest key params w) = Normal JNull) ->
      exists msg,
        In (name t, msg) failure_messages
        /\ fst (cb t args w)
           = Normal {| content := [ {| type := "text"; text := msg |} ] |}).
Proof.
  intros Hin. split; [|split].
  - split; [reflexivity|].
    split; repeat constructor; simpl; intuition discriminate.
  - destruct (cb_run args Hin) as (params & msg & _ & Hrun). rewrite Hrun.
    destruct (gateway_returns key params w) as (v & Hv & _).
    destruct (makeAlphaVantageRequest key params w) as [[u|e] w'];
      simpl in Hv; [|discriminate]. eexists. reflexivity.
  - intros Hg. now apply (@cb_null key).
Qed.

Lemma tool_answers_its_failure_text_witness :
  match tools "demo" with
  | t :: _ =>
      fst (cb t [("symbol", "IBM")] (mock TimedOut))
      = Normal {| content := [ {| type := "text"; text := "获取股票数据失败" |} ] |}
  | [] => False
  end.
Proof.
  cbn [tools].
  match goal with
  | |- fst (cb ?t _ _) = _ =>
      destruct (@tool_answers_its_failure_text "demo" t [("symbol", "IBM")]
                  (mock TimedOut)) as (_ & _ & H)
  end.
  - simpl. auto.
  - destruct H as (msg & Hmsg & Hcb).
    + intros params. rewrite gateway_run. reflexivity.
    + cbn [name] in Hmsg. simpl in Hmsg.
      repeat (destruct Hmsg as [Hmsg|Hmsg]; [try discriminate Hmsg|]);
        [|contradiction].
      injection Hmsg as <-. exact Hcb.
Defined.

(** ** The gateway *)




(** C10: a 2xx reply whose body is not empty but parses to 0, false, null
    or the empty string makes the gateway log its error and return
    [null]; each tool then answers with its failure text. *)
Theorem falsy_body_is_a_failure body v st key params t args w :
  In (body, v) falsy_bodies ->
  validateStatus st = true ->
  (forall req, upstream w req = Responds st v) ->
  In t (tools key) ->
  (body <> EmptyString /\ JSON.parse body = Some v /\ truthy v = false)
  /\ makeAlphaVantageRequest key params w
     = (Normal JNull,
        after_log (after_send w (issued key params)) (Error "无效的响应数据"))
  /\ exists msg,
       In (name t, msg) failure_messages
       /\ fst (cb t args w)
          = Normal {| content := [ {| type := "text"; text := msg |} ] |}.
Proof.
  intros Hb Hs Hup Hin.
  assert (Hf : body <> EmptyString /\ JSON.parse body = Some v /\ truthy v = false).
  { simpl in Hb.
    repeat (destruct Hb as [Hb|Hb]; [injection Hb as <- <-; repeat split; discriminate|]).
    contradiction. }
  assert (Hg : forall p, makeAlphaVantageRequest key p w
                 = (Normal JNull,
                    after_log (after_send w (issued key p)) (Error "无效的响应数据"))).
  { intros p. rewrite gateway_run, final_direct by (rewrite Hup; discriminate).
    rewrite Hup. simpl. destruct Hf as (_ & _ & Ht).
    now rewrite Hs, Ht. }
  split; [exact Hf|]. split; [apply Hg|].
  apply (@cb_null key); [assumption|]. intros p. now rewrite Hg.
Qed.

Lemma falsy_body_is_a_failure_witness :
  match tools "demo" with
  | t :: _ =>
      JSON.parse "false" = Some (JBool false)
      /\ fst (makeAlphaVantageRequest "demo" [("function", Some "GLOBAL_QUOTE")]
                (mock (Responds 200 (JBool false))))
         = Normal JNull
      /\ exists msg,
           In (name t, msg) failure_messages
           /\ fst (cb t [("symbol", "IBM")] (mock (Responds 200 (JBool false))))
              = Normal {| content := [ {| type := "text"; text := msg |} ] |}
  | [] => False
  end.
Proof.
  cbn [tools].
  match goal with
  | |- _ /\ _ /\ exists msg, In (name ?t, _) _ /\ _ =>
      destruct (@falsy_body_is_a_failure "false" (JBool false) 200%Z "demo"
                  [("function", Some "GLOBAL_QUOTE")] t [("symbol", "IBM")]
                  (mock (Responds 200 (JBool false))))
        as ((_ & Hp & _) & Hg & Ht)
  end.
  - simpl. auto.
  - reflexivity.
  - intros req. reflexivity.
  - simpl. auto.
  - split; [exact Hp|]. split; [now rewrite Hg | exact Ht].
Defined.

Lemma failure_fault r : failure r -> exists e, fault r = Some e.
Proof.
  destruct 1 as [c| |st d Hs|st d Hs Hd]; simpl; rewrite ?Hs, ?Hd; eauto.
Qed.

(** C9: two runs of a tool with the same arguments, in two worlds where
    the upstream fails in whatever way, give the same response; what
    went wrong is on [console.error] only, each world with its own
    cause. *)
Theorem failures_are_indistinguishable key t args w1 w2 :
  In t (tools key) ->
  (forall req, failure (upstream w1 req)) ->
  (forall req, failure (upstream w2 req)) ->
  fst (cb t args w1) = fst (cb t args w2)
  /\ exists req e1 e2,
       fault (upstream w1 req) = Some e1
       /\ fault (upstream w2 req) = Some e2
       /\ stderr (snd (cb t args w1)) = (stderr w1 ++ [(request_failed, e1)])%list
       /\ stderr (snd (cb t args w2)) = (stderr w2 ++ [(request_failed, e2)])%list.
Proof.
  intros Hin H1 H2.
  destruct (cb_run args Hin) as (params & msg & _ & Hrun).
  rewrite !Hrun, !gateway_run, !failure_direct by auto.
  destruct (failure_fault (H1 (issued key params))) as [e1 E1].
  destruct (failure_fault (H2 (issued key params))) as [e2 E2].
  rewrite E1, E2. split; [reflexivity|].
  exists (issued key params), e1, e2. repeat split; assumption.
Qed.

Lemma failures_are_indistinguishable_witness :
  match tools "demo" with
  | t :: _ =>
      fst (cb t [("symbol", "IBM")] (mock (NetworkFault "ECONNREFUSED")))
      = fst (cb t [("symbol", "IBM")] (mock (Responds 200 (JStr EmptyString))))
  | [] => False
  end.
Proof.
  cbn [tools].
  match goal with
  | |- fst (cb ?t _ _) = _ =>
      destruct (@failures_are_indistinguishable "demo" t [("symbol", "IBM")]
                  (mock (NetworkFault "ECONNREFUSED"))
                  (mock (Responds 200 (JStr EmptyString)))) as [H _]
  end.
  - simpl. auto.
  - intros req. apply network_error.
  - intros req. apply no_data; reflexivity.
  - exact H.
Defined.

(** ** Dispatch *)

(** A [tools/call] either finds no tool, or arguments the shape refuses,
    and touches nothing; or it runs the callback of a registered tool on
    the parsed arguments. *)
Lemma call_tool_cases key tool_name raw w :
  (exists o, (o = ToolNotFound \/ o = ToolDisabled)
             /\ call_tool key tool_name raw w = (Normal o, w))
  \/ call_tool key tool_name raw w = (Normal InvalidParams, w)
  \/ exists t args,
       In t (tools key) /\ name t = tool_name
       /\ zod_object (shape t) raw = Some args
       /\ call_tool key tool_name raw w
          = (r <- cb t args ;; ret (Result r)) w.
Proof.
  unfold call_tool.
  destruct (find _ (tools key)) as [t|] eqn:E.
  - apply find_some in E. destruct E as [Hin Hname].
    apply String.eqb_eq in Hname.
    destruct (zod_object (shape t) raw) as [args|] eqn:Ez; [|now (right; left)].
    right; right. exists t, args. auto.
  - left. destruct (existsb _ inherited_names);
      [exists ToolDisabled | exists ToolNotFound]; split; auto.
Qed.

(** No call throws. *)
Lemma call_tool_completes key tool_name raw w :
  exists o w', call_tool key tool_name raw w = (Normal o, w').
Proof.
  destruct (call_tool_cases key tool_name raw w)
    as [(o & _ & H)|[H|(t & args & Hin & _ & _ & H)]]; rewrite H; eauto.
  destruct (cb_run args Hin) as (params & msg & _ & Hrun).
  unfold bind. rewrite Hrun, gateway_run.
  destruct (fault _); eexists; eexists; reflexivity.
Qed.

(** ** Loading the module *)

(** C4: without the key in the environment the module throws at its
    check, and whatever statements come after the check are not run: the
    error is reported and the process exits.  So loading registers no
    tool, never connects the transport and leaves no server to call.
    Once a server runs, no call throws: it completes with a result,
    whatever the upstream does. *)
Theorem missing_key_stops_startup env (rest : string -> Init unit) :
  env = None ->
  run_module (init_bind (check_key env) (fun key =>
              init_bind (rest key) (fun _ => init_ret key)))
  = ([Uncaught (Error missing_key); Exit 1], None)
  /\ load env = ([Uncaught (Error missing_key); Exit 1], None)
  /\ ~ In TransportConnected (fst (load env))
  /\ (forall n, ~ In (ToolRegistered n) (fst (load env)))
  /\ (forall key tool_name raw w,
        exists o w', call_tool key tool_name raw w = (Normal o, w')).
Proof.
  intros ->. split; [reflexivity|]. split; [reflexivity|]. split; [|split].
  - simpl. intuition discriminate.
  - intros n. simpl. intuition discriminate.
  - intros. apply call_tool_completes.
Qed.

Lemma missing_key_stops_startup_witness :
  load None = ([Uncaught (Error missing_key); Exit 1], None)
  /\ ~ In TransportConnected (fst (load None)).
Proof.
  destruct (@missing_key_stops_startup None
              (fun key => init_bind (register_all (tools key)) (fun _ => main))
              eq_refl) as (_ & H1 & H2 & _).
  split; [exact H1 | exact H2].
Defined.

(** ** The requests *)

(** Case analysis on what a shape made of the raw arguments. *)
Ltac zod_cases H :=
  cbn [zod_object zod_parse] in H;
  repeat match type of H with
         | context [Obj.get ?r ?k] =>
             destruct (Obj.get r k) as [[| | | | ? | |]|];
             cbn [zod_object zod_parse] in H; try discriminate H
         end;
  repeat match type of H with
         | context [if ?b then _ else _] =>
             destruct b; try discriminate H
         end;
  injection H as <-.

Ltac run_handler :=
  unfold get_stock_price, get_company_overview, get_daily_time_series,
    get_weekly_time_series, get_forex_rate, get_crypto_price,
    get_technical_indicator, bind;
  rewrite gateway_run;
  match goal with
  | |- context [fault ?r] => destruct (fault r)
  end;
  try match goal with
      | |- context [truthy (payload ?r)] => destruct (truthy (payload r))
      end.

(** A callback run on parsed arguments issues exactly one request, and it
    is well formed. *)
Lemma request_shape key t raw args :
  In t (tools key) ->
  zod_object (shape t) raw = Some args ->
  exists req,
    (forall w, sent (snd (cb t args w)) = (sent w ++ [req])%list)
    /\ well_formed_request key req.
Proof.
  intros Hin Hz. unfold tools in Hin.
  repeat (destruct Hin as [<-|Hin]); [..|contradiction];
    cbn [shape] in Hz; zod_cases Hz; cbn [cb];
    (eexists; split; [intros w; run_handler; reflexivity|]);
    (split; [reflexivity|]); (split; [cbv; eexists; reflexivity|reflexivity]).
Qed.

Lemma snd_bind_ret {A B} (c : M A) (f : A -> B) w :
  snd ((r <- c ;; ret (f r)) w) = snd (c w).
Proof. unfold bind, ret. destruct (c w) as [[a|e] w']; reflexivity. Qed.

Lemma load_key env key :
  snd (load env) = Some key -> env = Some key /\ key <> EmptyString.
Proof.
  destruct env as [k|]; [|discriminate].
  unfold load, index_ts, check_key.
  destruct (String.eqb k EmptyString) eqn:E; [discriminate|].
  intros [= ->]. split; [reflexivity|]. now apply String.eqb_neq.
Qed.

(** C5: a server runs only with a key that was present and not empty
    when the module loaded; a call issues at most one request, and each
    request carries one [function] and, as [apikey], that key. *)
Theorem every_request_carries_function_and_key env key tool_name raw w :
  snd (load env) = Some key ->
  (env = Some key /\ key <> EmptyString)
  /\ exists now,
       sent (snd (call_tool key tool_name raw w)) = (sent w ++ now)%list
       /\ List.length now <= 1
       /\ Forall (well_formed_request key) now.
Proof.
  intros Hload. split; [now apply load_key|].
  destruct (call_tool_cases key tool_name raw w)
    as [(o & _ & H)|[H|(t & args & Hin & _ & Hz & H)]]; rewrite H.
  - exists []. simpl. rewrite List.app_nil_r. auto.
  - exists []. simpl. rewrite List.app_nil_r. auto.
  - destruct (request_shape raw Hin Hz) as (req & Hsent & Hreq).
    exists [req]. rewrite snd_bind_ret, Hsent. auto.
Qed.

Lemma every_request_carries_function_and_key_witness :
  sent (snd (call_tool "demo" "get_crypto_price"
               [("symbol", JStr "BTC"); ("market", JStr "USD")]
               (mock TimedOut)))
  = [ {| url := ALPHA_VANTAGE_BASE;
         query := [("function", "CRYPTO_INTRADAY"); ("symbol", "BTC");
                   ("market", "USD"); ("apikey", "demo")] |} ]
  /\ exists now,
       sent (snd (call_tool "demo" "get_crypto_price"
                    [("symbol", JStr "BTC"); ("market", JStr "USD")]
                    (mock TimedOut)))
       = (sent (mock TimedOut) ++ now)%list
       /\ List.length now <= 1
       /\ Forall (well_formed_request "demo") now.
Proof.
  split; [reflexivity|].
  apply (@every_request_carries_function_and_key (Some "demo") "demo"
           "get_crypto_price" [("symbol", JStr "BTC"); ("market", JStr "USD")]
           (mock TimedOut)).
  reflexivity.
Defined.

(** Evaluating the lookup of a tool by a given name, and the destructuring
    of its parsed arguments. *)
Ltac pick_tool :=
  unfold call_tool;
  match goal with
  | |- context [find ?f ?l] =>
      let r := eval cbv [find tools name String.eqb Ascii.eqb Bool.eqb] in (find f l) in
      change (find f l) with r
  end;
  cbn [shape zod_object zod_parse].

Ltac destructure :=
  cbn [cb];
  repeat match goal with
         | |- context [Obj.get (V := string) ?o ?k] =>
             let r := eval cbv [Obj.get String.eqb Ascii.eqb Bool.eqb] in (Obj.get o k) in
             change (Obj.get o k) with r
         end.

(** C6: [get_daily_time_series] called without [outputsize] hands the
    gateway [function = TIME_SERIES_DAILY], the symbol and
    [outputsize = compact], and that is the request issued. *)
Theorem daily_series_defaults_to_compact key raw symbol w :
  Obj.get raw "symbol" = Some (JStr symbol) ->
  Obj.get raw "outputsize" = None ->
  call_tool key "get_daily_time_series" raw w
  = (timeSeriesData <- makeAlphaVantageRequest key
                         [("function", Some "TIME_SERIES_DAILY");
                          ("symbol", Some symbol);
                          ("outputsize", Some "compact")] ;;
     ret (Result (text_result
                    (if truthy timeSeriesData
                     then JSON.stringify timeSeriesData 2
                     else "获取时间序列数据失败")))) w
  /\ sent (snd (call_tool key "get_daily_time_series" raw w))
     = (sent w
          ++ [ {| url := ALPHA_VANTAGE_BASE;
                  query := [("function", "TIME_SERIES_DAILY");
                            ("symbol", symbol);
                            ("outputsize", "compact");
                            ("apikey", key)] |} ])%list.
Proof.
  intros Hs Ho.
  assert (E : call_tool key "get_daily_time_series" raw w
              = (r <- get_daily_time_series key (Some symbol) (Some "compact") ;;
                 ret (Result r)) w).
  { pick_tool. rewrite Hs, Ho. destructure. reflexivity. }
  rewrite E. split.
  - unfold get_daily_time_series, bind.
    change (Obj.literal ?l) with l.
    destruct (makeAlphaVantageRequest _ _ w) as [[v|e] w']; [|reflexivity].
    destruct (truthy v); reflexivity.
  - rewrite snd_bind_ret. run_handler; reflexivity.
Qed.

Lemma daily_series_defaults_to_compact_witness :
  sent (snd (call_tool "demo" "get_daily_time_series" [("symbol", JStr "IBM")]
               (mock (Responds 200 ibm_quote))))
  = [ {| url := ALPHA_VANTAGE_BASE;
         query := [("function", "TIME_SERIES_DAILY"); ("symbol", "IBM");
                   ("outputsize", "compact"); ("apikey", "demo")] |} ].
Proof.
  destruct (@daily_series_defaults_to_compact "demo" [("symbol", JStr "IBM")]
              "IBM" (mock (Responds 200 ibm_quote))) as [_ H].
  - reflexivity.
  - reflexivity.
  - exact H.
Defined.

(** C7: [get_technical_indicator] hands the gateway its [indicator]
    argument as [function], whatever string it is, next to the symbol and
    the interval; the call is accepted and that is the request issued. *)
Theorem indicator_is_the_function key raw symbol indicator interval w :
  Obj.get raw "symbol" = Some (JStr symbol) ->
  Obj.get raw "indicator" = Some (JStr indicator) ->
  zod_parse (ZEnumDefault intervals "daily") (Obj.get raw "interval")
  = Some interval ->
  call_tool key "get_technical_indicator" raw w
  = (indicatorData <- makeAlphaVantageRequest key
                        [("function", Some indicator);
                         ("symbol", Some symbol);
                         ("interval", Some interval)] ;;
     ret (Result (text_result
                    (if truthy indicatorData
                     then JSON.stringify indicatorData 2
                     else "获取技术指标数据失败")))) w
  /\ sent (snd (call_tool key "get_technical_indicator" raw w))
     = (sent w
          ++ [ {| url := ALPHA_VANTAGE_BASE;
                  query := [("function", indicator);
                            ("symbol", symbol);
                            ("interval", interval);
                            ("apikey", key)] |} ])%list.
Proof.
  intros Hs Hi Hv.
  assert (E : call_tool key "get_technical_indicator" raw w
              = (r <- get_technical_indicator key (Some symbol) (Some indicator)
                        (Some interval) ;;
                 ret (Result r)) w).
  { pick_tool. rewrite Hs, Hi. cbn [zod_parse].
    fold (zod_parse (ZEnumDefault intervals "daily") (Obj.get raw "interval")).
    rewrite Hv. destructure. reflexivity. }
  rewrite E. split.
  - unfold get_technical_indicator, bind.
    change (Obj.literal ?l) with l.
    destruct (makeAlphaVantageRequest _ _ w) as [[v|e] w']; [|reflexivity].
    destruct (truthy v); reflexivity.
  - rewrite snd_bind_ret. run_handler; reflexivity.
Qed.

Lemma indicator_is_the_function_witness :
  sent (snd (call_tool "demo" "get_technical_indicator"
               [("symbol", JStr "IBM"); ("indicator", JStr "RSI")]
               (mock TimedOut)))
  = [ {| url := ALPHA_VANTAGE_BASE;
         query := [("function", "RSI"); ("symbol", "IBM");
                   ("interval", "daily"); ("apikey", "demo")] |} ].
Proof.
  destruct (@indicator_is_the_function "demo"
              [("symbol", JStr "IBM"); ("indicator", JStr "RSI")]
              "IBM" "RSI" "daily" (mock TimedOut)) as [_ H].
  - reflexivity.
  - reflexivity.
  - reflexivity.
  - exact H.
Defined.

(** C8: [get_forex_rate] with [from_currency = USD] and
    [to_currency = EUR] issues one GET to the fixed URL whose query is
    [function = CURRENCY_EXCHANGE_RATE], the two currencies and the key,
    and nothing else. *)
Theorem forex_request key raw w :
  Obj.get raw "from_currency" = Some (JStr "USD") ->
  Obj.get raw "to_currency" = Some (JStr "EUR") ->
  sent (snd (call_tool key "get_forex_rate" raw w))
  = (sent w
       ++ [ {| url := ALPHA_VANTAGE_BASE;
               query := [("function", "CURRENCY_EXCHANGE_RATE");
                         ("from_currency", "USD");
                         ("to_currency", "EUR");
                         ("apikey", key)] |} ])%list.
Proof.
  intros Hf Ht.
  assert (E : call_tool key "get_forex_rate" raw w
              = (r <- get_forex_rate key (Some "USD") (Some "EUR") ;;
                 ret (Result r)) w).
  { pick_tool. rewrite Hf, Ht. destructure. reflexivity. }
  rewrite E, snd_bind_ret. run_handler; reflexivity.
Qed.

Lemma forex_request_witness :
  sent (snd (call_tool "demo" "get_forex_rate"
               [("from_currency", JStr "USD"); ("to_currency", JStr "EUR")]
               (mock (Responds 200 ibm_quote))))
  = [ {| url := ALPHA_VANTAGE_BASE;
         query := [("function", "CURRENCY_EXCHANGE_RATE");
                   ("from_currency", "USD"); ("to_currency", "EUR");
                   ("apikey", "demo")] |} ].
Proof.
  apply (@forex_request "demo"
           [("from_currency", JStr "USD"); ("to_currency", JStr "EUR")]
           (mock (Responds 200 ibm_quote))); reflexivity.
Defined.

(** * More of the module *)

(** ** Objects: reading what was set *)

Module ObjGet.

Section Reading.
Variable V : Type.
Implicit Types (o src dst : Obj.t V) (k : string) (v : V).

Lemma get_none_keys o k : Obj.get o k = None <-> ~ In k (map fst o).
Proof.
  induction o as [|[k' v'] o IH]; simpl; [tauto|].
  destruct (String.eqb_spec k' k) as [->|Hne].
  - split; [discriminate|]. intros H. exfalso. apply H. now left.
  - rewrite IH. tauto.
Qed.

Lemma get_replace_same o k v :
  Obj.get o k <> None -> Obj.get (Obj.replace o k v) k = Some v.
Proof.
  induction o as [|[k' v'] o IH]; simpl; [congruence|].
  destruct (String.eqb k' k) eqn:E; simpl; rewrite E; auto.
Qed.

Lemma get_replace_other o k v k' :
  k' <> k -> Obj.get (Obj.replace o k v) k' = Obj.get o k'.
Proof.
  intros Hne. induction o as [|[k0 v0] o IH]; simpl; [reflexivity|].
  destruct (String.eqb_spec k0 k) as [->|H0]; simpl.
  - destruct (String.eqb_spec k k'); [congruence|reflexivity].
  - now rewrite IH.
Qed.

Lemma get_insert_same o k v :
  Obj.get o k = None -> Obj.get (Obj.insert o k v) k = Some v.
Proof.
  induction o as [|[k' v'] o IH]; simpl.
  - now rewrite String.eqb_refl.
  - destruct (String.eqb k' k) eqn:E; [discriminate|]. intros Hg.
    destruct (Obj.key_before k' k); simpl.
    + rewrite E. now apply IH.
    + now rewrite String.eqb_refl.
Qed.

Lemma get_insert_other o k v k' :
  k' <> k -> Obj.get (Obj.insert o k v) k' = Obj.get o k'.
Proof.
  intros Hne. induction o as [|[k0 v0] o IH]; simpl.
  - destruct (String.eqb_spec k k'); [congruence|reflexivity].
  - destruct (Obj.key_before k0 k); simpl.
    + now rewrite IH.
    + destruct (String.eqb_spec k k'); [congruence|reflexivity].
Qed.

Lemma get_set_same o k v : Obj.get (Obj.set o k v) k = Some v.
Proof.
  unfold Obj.set, Obj.has. destruct (Obj.get o k) eqn:E.
  - apply get_replace_same. congruence.
  - now apply get_insert_same.
Qed.

Lemma get_set_other o k v k' :
  k' <> k -> Obj.get (Obj.set o k v) k' = Obj.get o k'.
Proof.
  intros Hne. unfold Obj.set. destruct (Obj.has o k).
  - now apply get_replace_other.
  - now apply get_insert_other.
Qed.

Lemma keys_replace o k v : map fst (Obj.replace o k v) = map fst o.
Proof.
  induction o as [|[k' v'] o IH]; simpl; [reflexivity|].
  destruct (String.eqb k' k); simpl; [reflexivity|now rewrite IH].
Qed.

Lemma keys_insert o k v x :
  In x (map fst (Obj.insert o k v)) <-> x = k \/ In x (map fst o).
Proof.
  induction o as [|[k' v'] o IH]; simpl.
  - intuition.
  - destruct (Obj.key_before k' k); simpl; [rewrite IH|]; intuition.
Qed.

Lemma nodup_insert o k v :
  ~ In k (map fst o) -> NoDup (map fst o) -> NoDup (map fst (Obj.insert o k v)).
Proof.
  induction o as [|[k' v'] o IH]; simpl; intros Hk Hn.
  - constructor; [tauto|constructor].
  - inversion Hn as [|? ? Hk' Hn']; subst.
    destruct (Obj.key_before k' k); simpl.
    + constructor; [|apply IH; tauto].
      rewrite keys_insert. intros [->|H]; tauto.
    + constructor; [simpl; tauto|]. now constructor.
Qed.

(** Setting a property keeps the names of an object pairwise different. *)
Lemma nodup_set o k v : NoDup (map fst o) -> NoDup (map fst (Obj.set o k v)).
Proof.
  intros Hn. unfold Obj.set, Obj.has. destruct (Obj.get o k) eqn:E.
  - now rewrite keys_replace.
  - apply nodup_insert; [|assumption]. now apply get_none_keys.
Qed.

Lemma nodup_spread src : forall dst,
  NoDup (map fst dst) -> NoDup (map fst (Obj.spread dst src)).
Proof.
  induction src as [|[k v] src IH]; intros dst Hn; [assumption|].
  unfold Obj.spread in *. simpl. apply IH. now apply nodup_set.
Qed.

Lemma get_app o1 o2 k :
  Obj.get (o1 ++ o2)%list k
  = match Obj.get o1 k with
    | Some v => Some v
    | None => Obj.get o2 k
    end.
Proof.
  induction o1 as [|[k' v'] o1 IH]; simpl; [reflexivity|].
  destruct (String.eqb k' k); [reflexivity|apply IH].
Qed.

(** A spread gives every name the value written last for it. *)
Lemma get_spread src : forall dst k,
  Obj.get (Obj.spread dst src) k
  = match Obj.get (List.rev src) k with
    | Some v => Some v
    | None => Obj.get dst k
    end.
Proof.
  induction src as [|[k1 v1] src IH]; intros dst k; [reflexivity|].
  unfold Obj.spread in *. simpl fold_left. rewrite IH.
  simpl List.rev. rewrite get_app.
  destruct (Obj.get (List.rev src) k); [reflexivity|]. simpl.
  destruct (String.eqb_spec k1 k) as [->|Hne].
  - apply get_set_same.
  - apply get_set_other. congruence.
Qed.

End Reading.

(** The query pairs of a name, for an object whose names are pairwise
    different: the value of the name, if it is defined. *)
Lemma named_absent (o : AlphaVantageParams) k :
  ~ In k (map fst o) -> named k (serialize_params o) = [].
Proof.
  induction o as [|[k' [v'|]] o IH]; simpl; intros Hk; auto.
  unfold named in *. simpl.
  destruct (String.eqb_spec k' k) as [->|Hne]; [tauto|]. apply IH. tauto.
Qed.

Lemma named_params (o : AlphaVantageParams) k :
  NoDup (map fst o) ->
  named k (serialize_params o)
  = match Obj.get o k with
    | Some (Some v) => [(k, v)]
    | _ => []
    end.
Proof.
  induction o as [|[k' v'] o IH]; simpl; intros Hn; [reflexivity|].
  inversion Hn as [|? ? Hk' Hn']; subst.
  destruct (String.eqb_spec k' k) as [->|Hne].
  - destruct v' as [v'|].
    + unfold named. simpl. rewrite String.eqb_refl.
      fold (named k (serialize_params o)). now rewrite named_absent.
    + now apply named_absent.
  - rewrite <- (IH Hn'). destruct v' as [v'|]; [|reflexivity].
    unfold named. simpl. destruct (String.eqb_spec k' k); [congruence|reflexivity].
Qed.

End ObjGet.

(** ** The gateway: what it sends and what it logs *)

Lemma gateway_sent key params w :
  sent (snd (makeAlphaVantageRequest key params w))
  = (sent w ++ [issued key params])%list.
Proof. rewrite gateway_run. destruct (fault _); reflexivity. Qed.

Lemma spread_fresh_nodup (params : AlphaVantageParams) :
  NoDup (map fst (Obj.spread [] params)).
Proof. apply ObjGet.nodup_spread. constructor. Qed.

(** X1: whatever parameter object the gateway is given, also one that
    has an [apikey] of its own or names written twice, the request it
    issues goes to the fixed URL and carries [apikey] once, with the key
    of the server. *)
Theorem key_is_not_overridable key params w :
  exists req,
    sent (snd (makeAlphaVantageRequest key params w)) = (sent w ++ [req])%list
    /\ url req = ALPHA_VANTAGE_BASE
    /\ named "apikey" (query req) = [("apikey", key)].
Proof.
  exists (issued key params). split; [apply gateway_sent|]. split; [reflexivity|].
  unfold issued. cbn [query].
  rewrite ObjGet.named_params by (apply ObjGet.nodup_set, spread_fresh_nodup).
  now rewrite ObjGet.get_set_same.
Qed.

(** X2: every other parameter reaches the upstream at most once, with the
    value written last for its name in the parameter object, and not at
    all when that value is [undefined] or the name is absent. *)
Theorem parameters_pass_through key params w k :
  k <> "apikey" ->
  exists req,
    sent (snd (makeAlphaVantageRequest key params w)) = (sent w ++ [req])%list
    /\ named k (query req)
       = match Obj.get (List.rev params) k with
         | Some (Some v) => [(k, v)]
         | _ => []
         end.
Proof.
  intros Hk. exists (issued key params). split; [apply gateway_sent|].
  unfold issued. cbn [query].
  rewrite ObjGet.named_params by (apply ObjGet.nodup_set, spread_fresh_nodup).
  rewrite ObjGet.get_set_other by assumption.
  rewrite ObjGet.get_spread. simpl.
  destruct (Obj.get (List.rev params) k) as [[v|]|]; reflexivity.
Qed.

Lemma parameters_pass_through_witness :
  exists req,
    sent (snd (makeAlphaVantageRequest "demo"
                 [("function", Some "OVERVIEW"); ("symbol", Some "IBM");
                  ("interval", None); ("symbol", Some "MSFT")]
                 (mock TimedOut)))
    = [req]
    /\ named "symbol" (query req) = [("symbol", "MSFT")].
Proof.
  destruct (@parameters_pass_through "demo"
              [("function", Some "OVERVIEW"); ("symbol", Some "IBM");
               ("interval", None); ("symbol", Some "MSFT")]
              (mock TimedOut) "symbol") as (req & Hs & Hn).
  - discriminate.
  - exists req. split; [exact Hs | exact Hn].
Defined.

(** The reply axios ends with is a failure: one of the causes of
    [failure], or a redirection left over. *)
Inductive final_failure : reply -> Prop :=
| plain_failure r : failure r -> final_failure r
| too_many_redirects st l : final_failure (Redirects st l).

Lemma fault_failure r e : fault r = Some e -> final_failure r.
Proof.
  destruct r as [st d|st l|c|]; simpl; intros H.
  - apply plain_failure.
    destruct (validateStatus st) eqn:Es; [|now apply bad_status].
    destruct (truthy d) eqn:Ed; [discriminate|now apply no_data].
  - apply too_many_redirects.
  - apply plain_failure, network_error.
  - apply plain_failure, timeout.
Qed.

Lemma app_one_neq {A} (l : list A) x : l <> (l ++ [x])%list.
Proof.
  intros H. apply (f_equal (@List.length A)) in H.
  rewrite length_app in H. simpl in H. lia.
Qed.



(** ** The tools: one text block, and which one *)

Lemma digit_ascii c f : JSON.digit_con c = Some f -> (N_of_ascii c < 128)%N.
Proof.
  destruct c as [[|] [|] [|] [|] [|] [|] [|] [|]]; simpl;
    intros H; try discriminate H; reflexivity.
Qed.

(** A printed value starts with an ASCII character. *)
Lemma serialize_ascii gap ind v :
  exists c t, JSON.serialize gap ind v = String c t /\ (N_of_ascii c < 128)%N.
Proof.
  destruct v as [|[|]|n| |s|xs|kvs]; simpl;
    try (eexists; eexists; split; [reflexivity|reflexivity]).
  - destruct (NumberFacts.number_starts n) as (c & t & E & [Hc|[f Hc]]).
    + apply Ascii.eqb_eq in Hc. subst c. rewrite E. now eexists; eexists.
    + rewrite E. eexists; eexists. split; [reflexivity|]. eapply digit_ascii; eauto.
  - unfold JSON.wrap.
    destruct (map _ xs); [|destruct (String.eqb gap EmptyString)];
      eexists; eexists; split; reflexivity.
  - unfold JSON.wrap.
    destruct (map _ kvs); [|destruct (String.eqb gap EmptyString)];
      eexists; eexists; split; reflexivity.
Qed.

(** A failure text starts outside ASCII and is no JSON text. *)
Lemma failure_message_shape tool_name msg :
  In (tool_name, msg) failure_messages ->
  JSON.parse msg = None
  /\ exists c t, msg = String c t /\ (128 <= N_of_ascii c)%N.
Proof.
  simpl. intros H.
  repeat (destruct H as [H|H];
          [injection H as <- <-; split;
           [vm_compute; reflexivity
           |eexists; eexists; split; [reflexivity|vm_compute; discriminate]]|]).
  contradiction.
Qed.

Lemma stringify_not_failure tool_name msg v space :
  In (tool_name, msg) failure_messages -> JSON.stringify v space <> msg.
Proof.
  intros Hin E.
  destruct (failure_message_shape Hin) as (_ & c & t & -> & Hc).
  unfold JSON.stringify in E.
  destruct (serialize_ascii (JSON.spaces (Nat.min space 10)) EmptyString v)
    as (c' & t' & E' & Hc').
  rewrite E' in E. injection E as -> _. lia.
Qed.

(** X5: the text of a tool is its failure text exactly when its gateway
    call wrote a line to [console.error]; any other answer leaves the
    console as it was.  The failure text is no JSON text, so a caller
    that parses the answer tells the two apart. *)
Theorem failure_text_iff_logged key t args w :
  In t (tools key) ->
  exists msg,
    In (name t, msg) failure_messages
    /\ JSON.parse msg = None
    /\ (fst (cb t args w)
        = Normal {| content := [ {| type := "text"; text := msg |} ] |}
        <-> exists e,
              stderr (snd (cb t args w))
              = (stderr w ++ [(request_failed, e)])%list)
    /\ (fst (cb t args w)
        <> Normal {| content := [ {| type := "text"; text := msg |} ] |}
        -> stderr (snd (cb t args w)) = stderr w).
Proof.
  intros Hin. destruct (cb_run args Hin) as (params & msg & Hmsg & Hrun).
  exists msg. split; [assumption|].
  split; [apply (failure_message_shape Hmsg)|].
  rewrite Hrun, gateway_run.
  destruct (fault (final w (issued key params))) as [e|] eqn:E;
    cbn [fst snd truthy].
  - split.
    + split; [intros _; now exists e|reflexivity].
    + intros H. now contradiction H.
  - rewrite (fault_none_truthy _ E). split; [|reflexivity].
    split.
    + intros [= H]. now apply (stringify_not_failure _ _ Hmsg) in H.
    + intros [e He]. cbn [after_send stderr] in He.
      now apply app_one_neq in He.
Qed.

Lemma failure_text_iff_logged_witness :
  match tools "demo" with
  | t :: _ =>
      exists msg,
        In (name t, msg) failure_messages
        /\ JSON.parse msg = None
        /\ (fst (cb t [("symbol", "IBM")] (mock (Responds 200 ibm_quote)))
            = Normal {| content := [ {| type := "text"; text := msg |} ] |}
            <-> exists e,
                  stderr (snd (cb t [("symbol", "IBM")]
                                 (mock (Responds 200 ibm_quote))))
                  = (stderr (mock (Responds 200 ibm_quote))
                       ++ [(request_failed, e)])%list)
        /\ (fst (cb t [("symbol", "IBM")] (mock (Responds 200 ibm_quote)))
            <> Normal {| content := [ {| type := "text"; text := msg |} ] |}
            -> stderr (snd (cb t [("symbol", "IBM")]
                              (mock (Responds 200 ibm_quote))))
               = stderr (mock (Responds 200 ibm_quote)))
  | [] => False
  end.
Proof.
  cbn [tools].
  match goal with
  | |- exists msg, In (name ?t, _) _ /\ _ =>
      apply (@failure_text_iff_logged "demo" t [("symbol", "IBM")]
               (mock (Responds 200 ibm_quote)))
  end.
  simpl. auto.
Defined.

(** ** Dispatch: what a call depends on *)

(** The seven names are pairwise different, so a name finds its own
    registration. *)
Lemma tool_names_nodup key : NoDup (map name (tools key)).
Proof. simpl. repeat constructor; simpl; intuition discriminate. Qed.

Lemma find_tool key t :
  In t (tools key) ->
  find (fun t' => String.eqb (name t') (name t)) (tools key) = Some t.
Proof.
  intros Hin. unfold tools in Hin.
  repeat (destruct Hin as [<-|Hin]; [reflexivity|]). contradiction.
Qed.

Lemma zod_object_refuses sh raw k :
  In (k, ZString) sh ->
  (forall s, Obj.get raw k <> Some (JStr s)) ->
  zod_object sh raw = None.
Proof.
  induction sh as [|[k' z] sh IH]; simpl; [tauto|].
  intros [[= -> ->]|Hin] Hno.
  - simpl. destruct (Obj.get raw k) as [[| | | |s| |]|]; try reflexivity.
    now contradiction (Hno s).
  - rewrite (IH Hin Hno). now destruct (zod_parse z (Obj.get raw k')).
Qed.

(** X7: a call that leaves out an argument its tool declares with
    [z.string ()], or gives it a value that is no string, is refused
    before the callback runs: no request is issued and nothing is
    logged. *)
Theorem missing_argument_is_refused key t k raw w :
  In t (tools key) ->
  In (k, ZString) (shape t) ->
  (forall s, Obj.get raw k <> Some (JStr s)) ->
  call_tool key (name t) raw w = (Normal InvalidParams, w).
Proof.
  intros Hin Hk Hno. unfold call_tool.
  rewrite (find_tool Hin), (@zod_object_refuses _ _ _ Hk Hno). reflexivity.
Qed.

Lemma missing_argument_is_refused_witness :
  call_tool "demo" "get_forex_rate" [("from_currency", JStr "USD")]
    (mock (Responds 200 ibm_quote))
  = (Normal InvalidParams, mock (Responds 200 ibm_quote)).
Proof.
  assert (H : match tools "demo" with
              | _ :: _ :: _ :: _ :: t :: _ =>
                  call_tool "demo" (name t) [("from_currency", JStr "USD")]
                    (mock (Responds 200 ibm_quote))
                  = (Normal InvalidParams, mock (Responds 200 ibm_quote))
              | _ => False
              end).
  { cbn [tools].
    match goal with
    | |- call_tool _ (name ?t) _ _ = _ =>
        apply (@missing_argument_is_refused "demo" t "to_currency")
    end.
    - simpl. auto 10.
    - simpl. auto.
    - intros s. discriminate. }
  exact H.
Defined.

Lemma inherited_iff n :
  existsb (String.eqb n) inherited_names = true <-> In n inherited_names.
Proof.
  rewrite existsb_exists. split.
  - intros (x & Hx & E). apply String.eqb_eq in E. now subst x.
  - intros H. exists n. split; [assumption|apply String.eqb_refl].
Qed.

Lemma registered_not_inherited key n :
  In n (map name (tools key)) -> ~ In n inherited_names.
Proof.
  simpl. intros H Hi.
  repeat (destruct H as [<-|H]; [intuition discriminate|]). contradiction.
Qed.

(** X8: a call is answered [ToolNotFound] exactly when its name is none
    of the seven registered names and none of the names a plain object
    inherits; for an inherited name ([toString], [constructor],
    [__proto__], ...) the answer is [ToolDisabled].  Either way the call
    touches nothing. *)
Theorem unknown_tool_is_not_found key tool_name raw w :
  (fst (call_tool key tool_name raw w) = Normal ToolNotFound
   <-> ~ In tool_name (map name (tools key))
       /\ ~ In tool_name inherited_names)
  /\ (fst (call_tool key tool_name raw w) = Normal ToolDisabled
      <-> In tool_name inherited_names)
  /\ (~ In tool_name (map name (tools key)) ->
      snd (call_tool key tool_name raw w) = w).
Proof.
  unfold call_tool.
  destruct (find _ (tools key)) as [t|] eqn:E.
  - apply find_some in E. destruct E as [Hin Hn]. apply String.eqb_eq in Hn.
    assert (Hname : In tool_name (map name (tools key))).
    { rewrite <- Hn. now apply in_map. }
    pose proof (@registered_not_inherited key tool_name Hname) as Hni.
    assert (Hout : forall o, o = ToolNotFound \/ o = ToolDisabled ->
                   fst (match zod_object (shape t) raw with
                        | Some args => r <- cb t args ;; ret (Result r)
                        | None => ret InvalidParams
                        end w) <> Normal o).
    { intros o Ho. destruct (zod_object (shape t) raw) as [args|].
      - unfold bind. destruct (cb t args w) as [[r|e] w']; simpl;
          destruct Ho as [->| ->]; discriminate.
      - destruct Ho as [->| ->]; discriminate. }
    split; [|split].
    + split; [intros H; now apply Hout in H; auto|tauto].
    + split; [intros H; now apply Hout in H; auto|tauto].
    + tauto.
  - assert (Hname : ~ In tool_name (map name (tools key))).
    { intros Hin. apply in_map_iff in Hin. destruct Hin as (t & Hn & Hin).
      pose proof (find_none _ _ E t Hin) as Hf. cbv beta in Hf.
      rewrite Hn, String.eqb_refl in Hf. discriminate. }
    destruct (existsb (String.eqb tool_name) inherited_names) eqn:Ex.
    + apply inherited_iff in Ex. cbn [fst snd ret]. split; [|split].
      * split; [discriminate|]. intros [_ H]. contradiction.
      * split; auto.
      * reflexivity.
    + assert (Hni : ~ In tool_name inherited_names).
      { intros H. apply inherited_iff in H. congruence. }
      cbn [fst snd ret]. split; [|split].
      * split; auto.
      * split; [discriminate|]. intros H. contradiction.
      * reflexivity.
Qed.

Lemma unknown_tool_is_not_found_witness :
  snd (call_tool "demo" "get_stock_prices" [("symbol", JStr "IBM")]
         (mock TimedOut))
  = mock TimedOut.
Proof.
  apply (@unknown_tool_is_not_found "demo" "get_stock_prices"
           [("symbol", JStr "IBM")] (mock TimedOut)).
  simpl. intuition discriminate.
Defined.

Lemma zod_object_ext sh raw1 raw2 :
  (forall k z, In (k, z) sh -> Obj.get raw1 k = Obj.get raw2 k) ->
  zod_object sh raw1 = zod_object sh raw2.
Proof.
  induction sh as [|[k z] sh IH]; simpl; intros H; [reflexivity|].
  rewrite (H k z) by now left. rewrite IH; [reflexivity|].
  intros k' z' Hin. apply (H k' z'). now right.
Qed.

(** X9: only the arguments a tool declares count: two calls of a tool
    that agree on them have the same outcome and the same effects,
    whatever else the arguments hold. *)
Theorem undeclared_arguments_are_ignored key t raw1 raw2 w :
  In t (tools key) ->
  (forall k z, In (k, z) (shape t) -> Obj.get raw1 k = Obj.get raw2 k) ->
  call_tool key (name t) raw1 w = call_tool key (name t) raw2 w.
Proof.
  intros Hin H. unfold call_tool.
  now rewrite (find_tool Hin), (@zod_object_ext _ _ _ H).
Qed.

Lemma undeclared_arguments_are_ignored_witness :
  call_tool "demo" "get_stock_price"
    [("symbol", JStr "IBM"); ("apikey", JStr "other"); ("function", JStr "X")]
    (mock TimedOut)
  = call_tool "demo" "get_stock_price" [("symbol", JStr "IBM")] (mock TimedOut).
Proof.
  assert (H : match tools "demo" with
              | t :: _ =>
                  call_tool "demo" (name t)
                    [("symbol", JStr "IBM"); ("apikey", JStr "other");
                     ("function", JStr "X")]
                    (mock TimedOut)
                  = call_tool "demo" (name t) [("symbol", JStr "IBM")]
                      (mock TimedOut)
              | [] => False
              end).
  { cbn [tools].
    match goal with
    | |- call_tool _ (name ?t) _ _ = _ =>
        apply (@undeclared_arguments_are_ignored "demo" t)
    end.
    - simpl. auto.
    - simpl. intros k z [[= <- <-]|[]]. reflexivity. }
  exact H.
Defined.

Lemma zod_object_none sh raw k z :
  In (k, z) sh -> zod_parse z (Obj.get raw k) = None -> zod_object sh raw = None.
Proof.
  induction sh as [|[k' z'] sh IH]; simpl; [tauto|].
  intros [[= -> ->]|Hin] Hno.
  - now rewrite Hno.
  - rewrite (IH Hin Hno). now destruct (zod_parse z' (Obj.get raw k')).
Qed.

Lemma enum_refuses vs d v :
  (forall s, In s vs -> v <> JStr s) ->
  zod_parse (ZEnumDefault vs d) (Some v) = None.
Proof.
  intros H. destruct v as [| | | |s| |]; simpl; try reflexivity.
  destruct (existsb (String.eqb s) vs) eqn:E; [|reflexivity].
  apply existsb_exists in E. destruct E as (x & Hx & Ex).
  apply String.eqb_eq in Ex. subst x. now contradiction (H s Hx).
Qed.

(** X10: an argument declared with [z.enum] that is given a value outside
    its list ([outputsize] of the daily series, [interval] of the
    indicator) makes the call be refused: the default does not replace a
    wrong value, no request is issued and nothing is logged. *)
Theorem enum_value_outside_is_refused key t k vs d v raw w :
  In t (tools key) ->
  In (k, ZEnumDefault vs d) (shape t) ->
  Obj.get raw k = Some v ->
  (forall s, In s vs -> v <> JStr s) ->
  call_tool key (name t) raw w = (Normal InvalidParams, w).
Proof.
  intros Hin Hk Hv Hno. unfold call_tool.
  rewrite (find_tool Hin), (@zod_object_none _ raw _ _ Hk); [reflexivity|].
  rewrite Hv. now apply enum_refuses.
Qed.

Lemma enum_value_outside_is_refused_witness :
  call_tool "demo" "get_daily_time_series"
    [("symbol", JStr "IBM"); ("outputsize", JStr "Full")]
    (mock (Responds 200 ibm_quote))
  = (Normal InvalidParams, mock (Responds 200 ibm_quote)).
Proof.
  assert (H : match tools "demo" with
              | _ :: _ :: t :: _ =>
                  call_tool "demo" (name t)
                    [("symbol", JStr "IBM"); ("outputsize", JStr "Full")]
                    (mock (Responds 200 ibm_quote))
                  = (Normal InvalidParams, mock (Responds 200 ibm_quote))
              | _ => False
              end).
  { cbn [tools].
    match goal with
    | |- call_tool _ (name ?t) _ _ = _ =>
        apply (@enum_value_outside_is_refused "demo" t "outputsize"
                 ["compact"; "full"] "compact" (JStr "Full"))
    end.
    - simpl. auto.
    - simpl. auto.
    - reflexivity.
    - simpl. intros s [<-|[<-|[]]]; discriminate. }
  exact H.
Defined.

(** X11: [get_daily_time_series] given [outputsize] as [compact] or as
    [full] sends that value on, next to [function = TIME_SERIES_DAILY],
    the symbol and the key. *)
Theorem daily_series_outputsize_is_sent key raw symbol o w :
  Obj.get raw "symbol" = Some (JStr symbol) ->
  Obj.get raw "outputsize" = Some (JStr o) ->
  o = "compact" \/ o = "full" ->
  sent (snd (call_tool key "get_daily_time_series" raw w))
  = (sent w
       ++ [ {| url := ALPHA_VANTAGE_BASE;
               query := [("function", "TIME_SERIES_DAILY");
                         ("symbol", symbol);
                         ("outputsize", o);
                         ("apikey", key)] |} ])%list.
Proof.
  intros Hs Ho Hin.
  assert (E : call_tool key "get_daily_time_series" raw w
              = (r <- get_daily_time_series key (Some symbol) (Some o) ;;
                 ret (Result r)) w).
  { pick_tool. rewrite Hs, Ho. destruct Hin as [->| ->]; destructure; reflexivity. }
  rewrite E, snd_bind_ret. run_handler; reflexivity.
Qed.

Lemma daily_series_outputsize_is_sent_witness :
  sent (snd (call_tool "demo" "get_daily_time_series"
               [("outputsize", JStr "full"); ("symbol", JStr "IBM")]
               (mock TimedOut)))
  = [ {| url := ALPHA_VANTAGE_BASE;
         query := [("function", "TIME_SERIES_DAILY"); ("symbol", "IBM");
                   ("outputsize", "full"); ("apikey", "demo")] |} ].
Proof.
  apply (@daily_series_outputsize_is_sent "demo"
           [("outputsize", JStr "full"); ("symbol", JStr "IBM")]
           "IBM" "full" (mock TimedOut)).
  - reflexivity.
  - reflexivity.
  - now right.
Defined.

(** X12: [get_stock_price], [get_company_overview] and
    [get_weekly_time_series] each issue one GET whose query is their own
    [function] ([GLOBAL_QUOTE], [OVERVIEW], [TIME_SERIES_WEEKLY]), the
    symbol and the key, in this order, and nothing else. *)
Theorem symbol_tool_request key tool_name fn raw symbol w :
  In (tool_name, fn) symbol_tools ->
  Obj.get raw "symbol" = Some (JStr symbol) ->
  sent (snd (call_tool key tool_name raw w))
  = (sent w
       ++ [ {| url := ALPHA_VANTAGE_BASE;
               query := [("function", fn); ("symbol", symbol);
                         ("apikey", key)] |} ])%list.
Proof.
  intros Hin Hs. simpl in Hin.
  destruct Hin as [[= <- <-]|[[= <- <-]|[[= <- <-]|[]]]].
  - assert (E : call_tool key "get_stock_price" raw w
                = (r <- get_stock_price key (Some symbol) ;; ret (Result r)) w).
    { pick_tool. rewrite Hs. destructure. reflexivity. }
    rewrite E, snd_bind_ret. run_handler; reflexivity.
  - assert (E : call_tool key "get_company_overview" raw w
                = (r <- get_company_overview key (Some symbol) ;; ret (Result r)) w).
    { pick_tool. rewrite Hs. destructure. reflexivity. }
    rewrite E, snd_bind_ret. run_handler; reflexivity.
  - assert (E : call_tool key "get_weekly_time_series" raw w
                = (r <- get_weekly_time_series key (Some symbol) ;; ret (Result r)) w).
    { pick_tool. rewrite Hs. destructure. reflexivity. }
    rewrite E, snd_bind_ret. run_handler; reflexivity.
Qed.

Lemma symbol_tool_request_witness :
  sent (snd (call_tool "demo" "get_company_overview" [("symbol", JStr "IBM")]
               (mock (Responds 500 JNull))))
  = [ {| url := ALPHA_VANTAGE_BASE;
         query := [("function", "OVERVIEW"); ("symbol", "IBM");
                   ("apikey", "demo")] |} ].
Proof.
  apply (@symbol_tool_request "demo" "get_company_overview" "OVERVIEW"
           [("symbol", JStr "IBM")] "IBM" (mock (Responds 500 JNull))).
  - simpl. auto.
  - reflexivity.
Defined.

(** X13: [get_crypto_price] issues one GET whose query is
    [function = CRYPTO_INTRADAY], the symbol, the market and the key, and
    nothing else: no interval is sent. *)
Theorem crypto_request key raw symbol market w :
  Obj.get raw "symbol" = Some (JStr symbol) ->
  Obj.get raw "market" = Some (JStr market) ->
  sent (snd (call_tool key "get_crypto_price" raw w))
  = (sent w
       ++ [ {| url := ALPHA_VANTAGE_BASE;
               query := [("function", "CRYPTO_INTRADAY"); ("symbol", symbol);
                         ("market", market); ("apikey", key)] |} ])%list.
Proof.
  intros Hs Hm.
  assert (E : call_tool key "get_crypto_price" raw w
              = (r <- get_crypto_price key (Some symbol) (Some market) ;;
                 ret (Result r)) w).
  { pick_tool. rewrite Hs, Hm. destructure. reflexivity. }
  rewrite E, snd_bind_ret. run_handler; reflexivity.
Qed.

Lemma crypto_request_witness :
  sent (snd (call_tool "demo" "get_crypto_price"
               [("symbol", JStr "BTC"); ("market", JStr "USD")]
               (mock (Responds 200 ibm_quote))))
  = [ {| url := ALPHA_VANTAGE_BASE;
         query := [("function", "CRYPTO_INTRADAY"); ("symbol", "BTC");
                   ("market", "USD"); ("apikey", "demo")] |} ].
Proof.
  apply (@crypto_request "demo" [("symbol", JStr "BTC"); ("market", JStr "USD")]
           "BTC" "USD" (mock (Responds 200 ibm_quote))); reflexivity.
Defined.

Lemma zod_object_some sh raw :
  (forall k z, In (k, z) sh -> zod_parse z (Obj.get raw k) <> None) ->
  exists args, zod_object sh raw = Some args.
Proof.
  induction sh as [|[k z] sh IH]; simpl; intros H; [now eexists|].
  destruct IH as [args ->]; [intros k' z' Hin; apply H; now right|].
  destruct (zod_parse z (Obj.get raw k)) as [v|] eqn:E.
  - now eexists.
  - exfalso. apply (H k z); auto.
Qed.

(** X14: a call that gives a string for every argument declared with
    [z.string ()], and for every [z.enum] argument either nothing or a
    string of its list, is accepted: the arguments parse, the callback
    runs on the parsed arguments and hands axios exactly one request,
    which is well formed. *)
Theorem valid_call_is_accepted key t raw w :
  In t (tools key) ->
  (forall k, In (k, ZString) (shape t) -> exists s, Obj.get raw k = Some (JStr s)) ->
  (forall k vs d, In (k, ZEnumDefault vs d) (shape t) ->
     Obj.get raw k = None
     \/ exists s, In s vs /\ Obj.get raw k = Some (JStr s)) ->
  exists args req,
    zod_object (shape t) raw = Some args
    /\ call_tool key (name t) raw w = (r <- cb t args ;; ret (Result r)) w
    /\ sent (snd (call_tool key (name t) raw w)) = (sent w ++ [req])%list
    /\ well_formed_request key req.
Proof.
  intros Hin Hstr Henum.
  destruct (@zod_object_some (shape t) raw) as [args Hz].
  { intros k [|vs d] Hk.
    - destruct (Hstr k Hk) as [s ->]. discriminate.
    - destruct (Henum k vs d Hk) as [->|(s & Hs & ->)]; simpl; [discriminate|].
      assert (E : existsb (String.eqb s) vs = true).
      { apply existsb_exists. exists s. split; [assumption|apply String.eqb_refl]. }
      rewrite E. discriminate. }
  destruct (request_shape raw Hin Hz) as (req & Hsent & Hreq).
  exists args, req. split; [assumption|].
  assert (E : call_tool key (name t) raw w = (r <- cb t args ;; ret (Result r)) w).
  { unfold call_tool. now rewrite (find_tool Hin), Hz. }
  split; [exact E|]. rewrite E, snd_bind_ret, Hsent. auto.
Qed.

Lemma valid_call_is_accepted_witness :
  exists args req,
    zod_object [("symbol", ZString); ("indicator", ZString);
                ("interval", ZEnumDefault intervals "daily")]
      [("symbol", JStr "IBM"); ("indicator", JStr "SMA");
       ("interval", JStr "weekly")]
    = Some args
    /\ sent (snd (call_tool "demo" "get_technical_indicator"
                    [("symbol", JStr "IBM"); ("indicator", JStr "SMA");
                     ("interval", JStr "weekly")]
                    (mock TimedOut)))
       = (sent (mock TimedOut) ++ [req])%list
    /\ well_formed_request "demo" req.
Proof.
  assert (H : match tools "demo" with
              | _ :: _ :: _ :: _ :: _ :: _ :: t :: _ =>
                  exists args req,
                    zod_object (shape t)
                      [("symbol", JStr "IBM"); ("indicator", JStr "SMA");
                       ("interval", JStr "weekly")]
                    = Some args
                    /\ call_tool "demo" (name t)
                         [("symbol", JStr "IBM"); ("indicator", JStr "SMA");
                          ("interval", JStr "weekly")]
                         (mock TimedOut)
                       = (r <- cb t args ;; ret (Result r)) (mock TimedOut)
                    /\ sent (snd (call_tool "demo" (name t)
                                    [("symbol", JStr "IBM");
                                     ("indicator", JStr "SMA");
                                     ("interval", JStr "weekly")]
                                    (mock TimedOut)))
                       = (sent (mock TimedOut) ++ [req])%list
                    /\ well_formed_request "demo" req
              | _ => False
              end).
  { cbn [tools].
    match goal with
    | |- exists args req, zod_object (shape ?t) _ = _ /\ _ =>
        apply (@valid_call_is_accepted "demo" t)
    end.
    - simpl. auto 10.
    - simpl. intros k [[= <-]|[[= <-]|[[=]|[]]]]; eexists; reflexivity.
    - simpl. intros k vs d [[=]|[[=]|[[= <- <- <-]|[]]]].
      right. exists "weekly". split; [simpl; auto 10|reflexivity]. }
  cbn [tools shape name] in H.
  destruct H as (args & req & Hz & _ & Hs & Hr).
  exists args, req. auto.
Defined.

(** ** Loading the module, with a key *)

(** X15: the transport is connected exactly when the environment holds a
    key that is not the empty string; an empty key stops the module like
    a missing one.  With a key, the seven tools are registered in the
    order of the source before the transport is connected, and the line
    on the console comes last. *)
Theorem server_starts_iff_key env :
  (In TransportConnected (fst (load env))
   <-> exists key, env = Some key /\ key <> EmptyString)
  /\ load (Some EmptyString) = load None
  /\ (forall key, env = Some key -> key <> EmptyString ->
        load env
        = (map ToolRegistered
             ["get_stock_price"; "get_company_overview";
              "get_daily_time_series"; "get_weekly_time_series";
              "get_forex_rate"; "get_crypto_price"; "get_technical_indicator"]
             ++ [TransportConnected; ConsoleLog running],
           Some key)%list).
Proof.
  split; [|split; [reflexivity|]].
  - destruct env as [key|].
    + unfold load, index_ts, check_key, run_module, init_bind.
      destruct (String.eqb key EmptyString) eqn:E; cbn.
      * apply String.eqb_eq in E. subst key.
        split; [intuition discriminate|].
        intros (k & [= <-] & Hk). now contradiction Hk.
      * apply String.eqb_neq in E.
        split; [intros _; now exists key|]. intros _. auto 10.
    + cbn. split; [intuition discriminate|]. intros (k & [=] & _).
  - intros key -> Hne.
    unfold load, index_ts, check_key, run_module, init_bind.
    destruct (String.eqb key EmptyString) eqn:E.
    + apply String.eqb_eq in E. contradiction.
    + reflexivity.
Qed.

Lemma server_starts_iff_key_witness :
  load (Some "demo")
  = (map ToolRegistered
       ["get_stock_price"; "get_company_overview";
        "get_daily_time_series"; "get_weekly_time_series";
        "get_forex_rate"; "get_crypto_price"; "get_technical_indicator"]
       ++ [TransportConnected; ConsoleLog running],
     Some "demo")%list.
Proof.
  apply (@server_starts_iff_key (Some "demo")); [reflexivity|discriminate].
Defined.


